(** * A shallow embedding of the P6 schema parser (p6schema.py, p6schema_mcp.py)

    The development follows the layout of the Python sources: strings and
    dictionaries as Python has them, the element tree handed over by the XML
    reader, the typed records built by the [from_xml] class methods, the
    registry, the configuration file, and the queries.

    Conventions of the model:
    - a Python [str] is a [string]; the model is exact for text made of code
      points below 128, where [str.upper] and [str.lower] only move the
      letters a-z and A-Z.  A byte of 128 or more is left alone by [upper]
      and [lower] below, which is not what Python does to the code point of
      that number; in the same way the patterns take [\d] for the ten
      digits 0 to 9, fold the case of the letters a-z only, and [strip]
      knows the white space below 128 only.  Statements that compare the
      code with a notion of their own (equality up to case, the shape
      NN.NN) are therefore made for text below 128, see [is_ascii];
    - a Python [dict] is an association list in insertion order with no
      repeated key; assigning to a key that is present keeps its position;
    - a [for] loop that appends to a list is a [fold_left] over the iterated
      sequence. *)

From Stdlib Require Import List Bool Arith NArith Lia Ascii String.
From Stdlib Require Import Sorted Permutation.
Import ListNotations.

Open Scope string_scope.
Open Scope list_scope.

(** ** Python strings *)

Definition is_lower (c : ascii) : bool :=
  ((97 <=? N_of_ascii c) && (N_of_ascii c <=? 122))%N.

Definition is_upper (c : ascii) : bool :=
  ((65 <=? N_of_ascii c) && (N_of_ascii c <=? 90))%N.

Definition upper_ascii (c : ascii) : ascii :=
  if is_lower c then ascii_of_N (N_of_ascii c - 32) else c.

Definition lower_ascii (c : ascii) : ascii :=
  if is_upper c then ascii_of_N (N_of_ascii c + 32) else c.

(** [s.upper()] *)
Fixpoint upper (s : string) : string :=
  match s with
  | EmptyString => EmptyString
  | String c r => String (upper_ascii c) (upper r)
  end.

(** [s.lower()] *)
Fixpoint lower (s : string) : string :=
  match s with
  | EmptyString => EmptyString
  | String c r => String (lower_ascii c) (lower r)
  end.

(** [s.startswith(p)] *)
Fixpoint startswith (p s : string) : bool :=
  match p, s with
  | EmptyString, _ => true
  | String _ _, EmptyString => false
  | String a p', String b s' => Ascii.eqb a b && startswith p' s'
  end.

(** [p in s] for two strings: [p] occurs in [s] as a contiguous run. *)
Fixpoint str_in (p s : string) : bool :=
  startswith p s ||
  match s with
  | EmptyString => false
  | String _ s' => str_in p s'
  end.

(** ** Python dictionaries with string keys *)

Definition dict (V : Type) : Type := list (string * V).

(** [d[k] = v] *)
Fixpoint dict_set {V : Type} (k : string) (v : V) (d : dict V) : dict V :=
  match d with
  | [] => [(k, v)]
  | (k', v') :: r =>
      if String.eqb k k' then (k', v) :: r else (k', v') :: dict_set k v r
  end.

(** [d.get(k)] *)
Fixpoint dict_get {V : Type} (k : string) (d : dict V) : option V :=
  match d with
  | [] => None
  | (k', v) :: r => if String.eqb k k' then Some v else dict_get k r
  end.

Definition dict_keys {V : Type} (d : dict V) : list string := map fst d.
Definition dict_values {V : Type} (d : dict V) : list V := map snd d.
Definition dict_items {V : Type} (d : dict V) : list (string * V) := d.

(** ** The element tree (xml.etree.ElementTree.Element) *)

#[local] Unset Elimination Schemes.
Inductive Elem : Type :=
  mkElem (tag : string) (attrib : dict string) (children : list Elem).

#[local] Set Elimination Schemes.

Definition tag (e : Elem) : string := let 'mkElem t _ _ := e in t.
Definition attrib (e : Elem) : dict string := let 'mkElem _ a _ := e in a.
Definition children (e : Elem) : list Elem := let 'mkElem _ _ c := e in c.

(** [elem.get(key, default)] *)
Definition elem_get (e : Elem) (key default : string) : string :=
  match dict_get key (attrib e) with
  | Some v => v
  | None => default
  end.

(** [elem.findall(t)] for a plain tag name: the direct children with that
    tag, in document order. *)
Definition findall (e : Elem) (t : string) : list Elem :=
  filter (fun c => String.eqb (tag c) t) (children e).

(** ** The typed records *)

Module Field.
Record t : Type := mk {
  name : string;
  datatype : string;
  charlength : string;
  dataprecision : string;
  datascale : string;
  notnull : string;
  default : string;
  description : string;
  idcolumn : string
}.

Definition from_xml (elem : Elem) : t :=
  {| name := elem_get elem "NAME" "";
     datatype := elem_get elem "DATATYPE" "";
     charlength := elem_get elem "CHARLENGTH" "";
     dataprecision := elem_get elem "DATAPRECISION" "";
     datascale := elem_get elem "DATASCALE" "";
     notnull := elem_get elem "NOTNULL" "N";
     default := elem_get elem "DEFAULT" "";
     description := elem_get elem "DESC" "";
     idcolumn := elem_get elem "IDCOLUMN" "N" |}.
End Field.

Module Index.
Record t : Type := mk {
  name : string;
  fields : string;
  uniqueness : string;
  tablespace : string
}.

Definition from_xml (elem : Elem) : t :=
  {| name := elem_get elem "NAME" "";
     fields := elem_get elem "FIELD" "";
     uniqueness := elem_get elem "UNIQUENESS" "NONUNIQUE";
     tablespace := elem_get elem "TABLESPACE" "" |}.
End Index.

Module Constraint.
Record t : Type := mk {
  name : string;
  type : string;
  fields : string;
  target_table : string;
  target_fields : string;
  delete_rule : string
}.

Definition from_xml (elem : Elem) : t :=
  {| name := elem_get elem "NAME" "";
     type := elem_get elem "TYPE" "";
     fields := elem_get elem "FIELDS" "";
     target_table := elem_get elem "TARGETTABLE" "";
     target_fields := elem_get elem "TARGETFIELDS" "";
     delete_rule := elem_get elem "DELETERULE" "" |}.
End Constraint.

Module Trigger.
Record t : Type := mk {
  name : string;
  set_type : string;
  target : string;
  description : string
}.

Definition from_xml (elem : Elem) : t :=
  {| name := elem_get elem "NAME" "";
     set_type := elem_get elem "SET" "";
     target := elem_get elem "TARGET" "";
     description := elem_get elem "DESC" "" |}.
End Trigger.

Module Table.
Record t : Type := mk {
  name : string;
  description : string;
  title : string;
  tabletype : string;
  tablespace : string;
  ordinal : string;
  fields : list Field.t;
  indexes : list Index.t;
  constraints : list Constraint.t;
  triggers : list Trigger.t
}.

(** One turn of the loop [for child in elem] of [Table.from_xml]. *)
Definition add_child (table : t) (child : Elem) : t :=
  if String.eqb (tag child) "FIELD" then
    mk (name table) (description table) (title table) (tabletype table)
       (tablespace table) (ordinal table)
       (fields table ++ [Field.from_xml child])
       (indexes table) (constraints table) (triggers table)
  else if String.eqb (tag child) "INDEX" then
    mk (name table) (description table) (title table) (tabletype table)
       (tablespace table) (ordinal table)
       (fields table)
       (indexes table ++ [Index.from_xml child])
       (constraints table) (triggers table)
  else if String.eqb (tag child) "CONSTRAINT" then
    mk (name table) (description table) (title table) (tabletype table)
       (tablespace table) (ordinal table)
       (fields table) (indexes table)
       (constraints table ++ [Constraint.from_xml child])
       (triggers table)
  else if String.eqb (tag child) "TRIGGER" then
    mk (name table) (description table) (title table) (tabletype table)
       (tablespace table) (ordinal table)
       (fields table) (indexes table) (constraints table)
       (triggers table ++ [Trigger.from_xml child])
  else table.

Definition from_xml (elem : Elem) : t :=
  let table :=
    {| name := elem_get elem "NAME" "";
       description := elem_get elem "DESC" "";
       title := elem_get elem "TITLE" "";
       tabletype := elem_get elem "TABLETYPE" "NORMAL";
       tablespace := elem_get elem "TABLESPACE" "";
       ordinal := elem_get elem "ORDINAL" "";
       fields := [];
       indexes := [];
       constraints := [];
       triggers := [] |} in
  fold_left add_child (children elem) table.
End Table.

Module Schema.
Record t : Type := mk {
  version : string;
  dbtype : string;
  build_version : string;
  min_pro_version : string;
  tables : dict Table.t;
  source_path : string
}.

(** One turn of the loop [for table_elem in root.findall("TABLE")]:
    [schema.tables[table.name] = table]. *)
Definition add_table (schema : t) (table_elem : Elem) : t :=
  let table := Table.from_xml table_elem in
  mk (version schema) (dbtype schema) (build_version schema)
     (min_pro_version schema)
     (dict_set (Table.name table) table (tables schema))
     (source_path schema).

(** [Schema.from_xml], from the point where the specifier has been resolved
    to [path] and [ET.parse(path).getroot()] has returned [root]. *)
Definition from_xml (path : string) (root : Elem) : t :=
  let schema :=
    {| version := elem_get root "VERSION" "";
       dbtype := elem_get root "DBTYPE" "";
       build_version := elem_get root "BUILD_VERSION_ID" "";
       min_pro_version := elem_get root "MIN_PRO_VERSION" "";
       tables := [];
       source_path := path |} in
  fold_left add_table (findall root "TABLE") schema.

Definition get_table (self : t) (name : string) : option Table.t :=
  dict_get (upper name) (tables self).

Definition search_tables (self : t) (pattern : string) : list Table.t :=
  let pattern := upper pattern in
  map snd
    (filter (fun item => str_in pattern (fst item))
            (dict_items (tables self))).

Definition search_fields (self : t) (pattern : string)
  : list (string * Field.t) :=
  let pattern := upper pattern in
  fold_left
    (fun results table =>
       fold_left
         (fun results f =>
            if str_in pattern (upper (Field.name f))
            then results ++ [(Table.name table, f)]
            else results)
         (Table.fields table) results)
    (dict_values (tables self)) [].

(** The dictionary appended by [search_relationships]. *)
Record relationship : Type := mk_relationship {
  source_table : string;
  constraint : string;
  fields : string;
  target_table : string;
  target_fields : string
}.

Definition relationship_of (table : Table.t) (c : Constraint.t)
  : relationship :=
  {| source_table := Table.name table;
     constraint := Constraint.name c;
     fields := Constraint.fields c;
     target_table := Constraint.target_table c;
     target_fields := Constraint.target_fields c |}.

(** The five-way [or] in the body of [search_relationships]; [pattern] is
    already upper-cased there. *)
Definition relationship_matches (pattern : string) (table : Table.t)
           (c : Constraint.t) : bool :=
  str_in pattern (upper (Table.name table)) ||
  str_in pattern (upper (Constraint.target_table c)) ||
  str_in pattern (upper (Constraint.fields c)) ||
  str_in pattern (upper (Constraint.target_fields c)) ||
  str_in pattern (upper (Constraint.name c)).

Definition search_relationships (self : t) (pattern : string)
  : list relationship :=
  let pattern := upper pattern in
  fold_left
    (fun results table =>
       fold_left
         (fun results c =>
            if negb (String.eqb (Constraint.type c) "FOREIGN") then results
            else if relationship_matches pattern table c
            then results ++ [relationship_of table c]
            else results)
         (Table.constraints table) results)
    (dict_values (tables self)) [].
End Schema.

(** ** Sorting and sets *)

(** [sorted(l, key=...)]: Python's sort is stable and compares with [<]
    only.  [lt x y] stands for [key(x) < key(y)].  Insertion from the right
    puts an element in front of the elements it is not greater than, so equal
    keys keep their order. *)
Fixpoint insert_sorted {A : Type} (lt : A -> A -> bool) (x : A) (l : list A)
  : list A :=
  match l with
  | [] => [x]
  | y :: r => if lt y x then y :: insert_sorted lt x r else x :: y :: r
  end.

Definition sorted_by {A : Type} (lt : A -> A -> bool) (l : list A) : list A :=
  fold_right (insert_sorted lt) [] l.

(** [l[-1] if l else None] *)
Fixpoint last_opt {A : Type} (l : list A) : option A :=
  match l with
  | [] => None
  | [x] => Some x
  | _ :: r => last_opt r
  end.

(** A Python [set] of strings is a list without repetition.  The order in
    which Python iterates over a set is not fixed by the language; the model
    iterates in order of first insertion. *)
Definition set_mem (x : string) (s : list string) : bool :=
  existsb (String.eqb x) s.

Definition set_of_list (l : list string) : list string :=
  fold_left (fun s x => if set_mem x s then s else s ++ [x]) l [].

(** [a - b] *)
Definition set_diff (a b : list string) : list string :=
  filter (fun x => negb (set_mem x b)) a.

(** [a & b] *)
Definition set_inter (a b : list string) : list string :=
  filter (fun x => set_mem x b) a.

(** [a == b] *)
Definition set_eqb (a b : list string) : bool :=
  forallb (fun x => set_mem x b) a && forallb (fun x => set_mem x a) b.

(** ** Relationships of a table (cmd_relationships, get_relationships) *)

Module Outgoing.
Record t : Type := mk {
  constraint : string;
  fields : string;
  references_table : string;
  references_fields : string
}.

Definition of_constraint (c : Constraint.t) : t :=
  {| constraint := Constraint.name c;
     fields := Constraint.fields c;
     references_table := Constraint.target_table c;
     references_fields := Constraint.target_fields c |}.
End Outgoing.

Module Incoming.
Record t : Type := mk {
  table : string;
  constraint : string;
  fields : string;
  references_fields : string
}.

Definition of_constraint (other_table : Table.t) (c : Constraint.t) : t :=
  {| table := Table.name other_table;
     constraint := Constraint.name c;
     fields := Constraint.fields c;
     references_fields := Constraint.target_fields c |}.
End Incoming.

Definition is_foreign (c : Constraint.t) : bool :=
  String.eqb (Constraint.type c) "FOREIGN".

(** The loop that fills [outgoing]. *)
Definition outgoing_of (t : Table.t) : list Outgoing.t :=
  fold_left
    (fun outgoing c =>
       if is_foreign c then outgoing ++ [Outgoing.of_constraint c]
       else outgoing)
    (Table.constraints t) [].

(** The loop that fills [incoming]; a table named like [t] is skipped by the
    [continue]. *)
Definition incoming_of (s : Schema.t) (t : Table.t) : list Incoming.t :=
  fold_left
    (fun incoming other_table =>
       if String.eqb (Table.name other_table) (Table.name t) then incoming
       else
         fold_left
           (fun incoming c =>
              if is_foreign c &&
                 String.eqb (upper (Constraint.target_table c))
                            (upper (Table.name t))
              then incoming ++ [Incoming.of_constraint other_table c]
              else incoming)
           (Table.constraints other_table) incoming)
    (dict_values (Schema.tables s)) [].

Record relationships : Type := mk_relationships {
  rel_table : string;
  outgoing : list Outgoing.t;
  incoming : list Incoming.t;
  outgoing_count : nat;
  incoming_count : nat
}.

(** The tool answers with an error dictionary when the table is not found
    and with the relationships otherwise. *)
Inductive tool_result (A : Type) : Type :=
| TableNotFound (table : string)
| Answer (a : A).
Arguments TableNotFound {A} table.
Arguments Answer {A} a.

Definition get_relationships (s : Schema.t) (table : string)
  : tool_result relationships :=
  match Schema.get_table s table with
  | None => TableNotFound table
  | Some t =>
      let outgoing := outgoing_of t in
      let incoming := incoming_of s t in
      Answer {| rel_table := Table.name t;
                outgoing := outgoing;
                incoming := incoming;
                outgoing_count := List.length outgoing;
                incoming_count := List.length incoming |}
  end.

(** ** Comparing two schemas (compare_schemas, cmd_compare) *)

Record modified_table : Type := mk_modified_table {
  mod_table : string;
  added_fields : list string;
  removed_fields : list string
}.

Record comparison_result : Type := mk_comparison_result {
  schema1_info : string * nat;
  schema2_info : string * nat;
  added_tables : list string;
  removed_tables : list string;
  modified_tables : list modified_table
}.

Definition field_names (t : Table.t) : list string :=
  set_of_list (map Field.name (Table.fields t)).

(** One turn of [for name in common]; [None] is the [KeyError] of
    [s.tables[name]]. *)
Definition compare_table (s1 s2 : Schema.t)
           (modified : option (list modified_table)) (name : string)
  : option (list modified_table) :=
  match modified with
  | None => None
  | Some modified =>
      match dict_get name (Schema.tables s1),
            dict_get name (Schema.tables s2) with
      | Some t1, Some t2 =>
          let f1 := field_names t1 in
          let f2 := field_names t2 in
          if negb (set_eqb f1 f2) then
            Some (modified ++
                  [{| mod_table := name;
                      added_fields := sorted_by String.ltb (set_diff f2 f1);
                      removed_fields := sorted_by String.ltb (set_diff f1 f2) |}])
          else Some modified
      | _, _ => None
      end
  end.

(** [compare_schemas], on the two schemas already loaded. *)
Definition compare_schemas (s1 s2 : Schema.t) : option comparison_result :=
  let tables1 := set_of_list (dict_keys (Schema.tables s1)) in
  let tables2 := set_of_list (dict_keys (Schema.tables s2)) in
  let added := set_diff tables2 tables1 in
  let removed := set_diff tables1 tables2 in
  let common := set_inter tables1 tables2 in
  match fold_left (compare_table s1 s2) common (Some []) with
  | None => None
  | Some modified =>
      Some {| schema1_info := (Schema.version s1, List.length tables1);
              schema2_info := (Schema.version s2, List.length tables2);
              added_tables := sorted_by String.ltb added;
              removed_tables := sorted_by String.ltb removed;
              modified_tables := modified |}
  end.

(** ** The registry of schema files *)

Module SchemaEntry.
Record t : Type := mk {
  application : string;
  version : string;
  path : string
}.

Definition key (self : t) : string :=
  (application self ++ ":" ++ version self)%string.
End SchemaEntry.

Definition is_digit (c : ascii) : bool :=
  ((48 <=? N_of_ascii c) && (N_of_ascii c <=? 57))%N.

Definition newline : string := String (ascii_of_N 10) EmptyString.

(** A literal of the pattern at the head of [s], letters compared without
    case as [re.IGNORECASE] asks; gives the text matched and the rest. *)
Fixpoint match_literal (lit s : string) : option (string * string) :=
  match lit with
  | EmptyString => Some (EmptyString, s)
  | String a lit' =>
      match s with
      | EmptyString => None
      | String b s' =>
          if Ascii.eqb (lower_ascii a) (lower_ascii b) then
            match match_literal lit' s' with
            | Some (m, r) => Some (String b m, r)
            | None => None
            end
          else None
      end
  end.

(** [(\d{2})] at the head of [s]. *)
Definition match_digits2 (s : string) : option (string * string) :=
  match s with
  | String a (String b r) =>
      if is_digit a && is_digit b
      then Some (String a (String b EmptyString), r) else None
  | _ => None
  end.

(** [$]: the end of the text, or the last newline of the text. *)
Definition match_end (s : string) : bool :=
  String.eqb s EmptyString || String.eqb s newline.

(** One branch of the alternation [(eppm|ppm)] followed by the rest of the
    pattern; the groups 1, 2 and 3 of the match. *)
Definition match_branch (app name : string)
  : option (string * string * string) :=
  match match_literal app name with
  | None => None
  | Some (g1, r1) =>
  match match_literal "_" r1 with
  | None => None
  | Some (_, r2) =>
  match match_digits2 r2 with
  | None => None
  | Some (g2, r3) =>
  match match_literal "_" r3 with
  | None => None
  | Some (_, r4) =>
  match match_digits2 r4 with
  | None => None
  | Some (g3, r5) =>
  match match_literal "_schema.xml" r5 with
  | None => None
  | Some (_, r6) => if match_end r6 then Some (g1, g2, g3) else None
  end end end end end end.

(** [FILENAME_PATTERN.match(name)] for
    [^(eppm|ppm)_(\d{2})_(\d{2})_schema\.xml$]. *)
Definition FILENAME_PATTERN (name : string)
  : option (string * string * string) :=
  match match_branch "eppm" name with
  | Some g => Some g
  | None => match_branch "ppm" name
  end.

Module SchemaRegistry.
Record t : Type := mk {
  schema_dir : string;
  _entries : dict SchemaEntry.t
}.

(** One turn of [for path in self.schema_dir.iterdir()]; the directory
    entry is its name with the answer of [is_file()]. *)
Definition scan_entry (schema_dir : string) (entries : dict SchemaEntry.t)
           (p : string * bool) : dict SchemaEntry.t :=
  let '(name, is_file) := p in
  if negb is_file then entries
  else
    match FILENAME_PATTERN name with
    | Some (g1, major, minor) =>
        let app := lower g1 in
        let version := (major ++ "." ++ minor)%string in
        let entry :=
          SchemaEntry.mk app version (schema_dir ++ "/" ++ name)%string in
        dict_set (SchemaEntry.key entry) entry entries
    | None => entries
    end.

(** [_scan]; [listing] is [None] when the directory does not exist. *)
Definition _scan (schema_dir : string)
           (listing : option (list (string * bool)))
  : dict SchemaEntry.t :=
  match listing with
  | None => []
  | Some l => fold_left (scan_entry schema_dir) l []
  end.

(** [__init__] *)
Definition init (schema_dir : string)
           (listing : option (list (string * bool))) : t :=
  {| schema_dir := schema_dir; _entries := _scan schema_dir listing |}.

Definition version_lt (a b : SchemaEntry.t) : bool :=
  String.ltb (SchemaEntry.version a) (SchemaEntry.version b).

Definition list_by_app (self : t) (application : string)
  : list SchemaEntry.t :=
  let app := lower application in
  sorted_by version_lt
    (filter (fun e => String.eqb (SchemaEntry.application e) app)
            (dict_values (_entries self))).

Definition get_latest (self : t) (application : string)
  : option SchemaEntry.t :=
  last_opt (list_by_app self application).
End SchemaRegistry.

(** ** The configuration file *)

Inductive py_exception : Type :=
| JSONDecodeError
| OSError
| UnicodeDecodeError
| RecursionError.

Inductive outcome (A : Type) : Type :=
| Return (a : A)
| Raise (e : py_exception).
Arguments Return {A} a.
Arguments Raise {A} e.

(** What can be at [CONFIG_FILE]: nothing, something that cannot be opened
    or read (a directory, a file without read permission), or a file with
    some bytes. *)
Inductive config_file : Type :=
| Absent
| Unreadable
| Contents (bytes : list Byte.byte).

Definition in_range (lo hi b : N) : bool := ((lo <=? b) && (b <=? hi))%N.

(** The strict UTF-8 decoder of [read_text()] under a UTF-8 locale; [None]
    is [UnicodeDecodeError]. *)
Fixpoint utf8_decode (bs : list N) : option (list N) :=
  match bs with
  | [] => Some []
  | b0 :: r0 =>
      if (b0 <? 128)%N then option_map (cons b0) (utf8_decode r0)
      else if in_range 194 223 b0 then
        match r0 with
        | b1 :: r1 =>
            if in_range 128 191 b1
            then option_map (cons ((b0 - 192) * 64 + (b1 - 128))%N)
                            (utf8_decode r1)
            else None
        | _ => None
        end
      else if in_range 224 239 b0 then
        match r0 with
        | b1 :: b2 :: r2 =>
            if in_range (if (b0 =? 224)%N then 160 else 128)
                        (if (b0 =? 237)%N then 159 else 191) b1
               && in_range 128 191 b2
            then option_map
                   (cons ((b0 - 224) * 4096 + (b1 - 128) * 64 + (b2 - 128))%N)
                   (utf8_decode r2)
            else None
        | _ => None
        end
      else if in_range 240 244 b0 then
        match r0 with
        | b1 :: b2 :: b3 :: r3 =>
            if in_range (if (b0 =? 240)%N then 144 else 128)
                        (if (b0 =? 244)%N then 143 else 191) b1
               && in_range 128 191 b2 && in_range 128 191 b3
            then option_map
                   (cons ((b0 - 240) * 262144 + (b1 - 128) * 4096
                          + (b2 - 128) * 64 + (b3 - 128))%N)
                   (utf8_decode r3)
            else None
        | _ => None
        end
      else None
  end.

(** [CONFIG_FILE.exists()] *)
Definition exists_ (f : config_file) : bool :=
  match f with
  | Absent => false
  | _ => true
  end.

(** [CONFIG_FILE.read_text()] *)
Definition read_text (f : config_file) : outcome (list N) :=
  match f with
  | Absent => Raise OSError
  | Unreadable => Raise OSError
  | Contents bytes =>
      match utf8_decode (map Byte.to_N bytes) with
      | Some text => Return text
      | None => Raise UnicodeDecodeError
      end
  end.

Section Config.
(** The JSON reader of the standard library is taken as it comes: a
    function from the text to a value or to the exception it raises. *)
Variable Json : Type.
Variable json_loads : list N -> outcome Json.
Variable empty_dict : Json.

(** [json.loads(CONFIG_FILE.read_text())] *)
Definition read_and_parse (f : config_file) : outcome Json :=
  match read_text f with
  | Return text => json_loads text
  | Raise e => Raise e
  end.

(** [load_config]: the [except] clause names [json.JSONDecodeError] and
    [OSError]; any other exception leaves the function. *)
Definition load_config (f : config_file) : outcome Json :=
  if negb (exists_ f) then Return empty_dict
  else
    match read_and_parse f with
    | Return v => Return v
    | Raise JSONDecodeError => Return empty_dict
    | Raise OSError => Return empty_dict
    | Raise e => Raise e
    end.
End Config.

(** ** Notions of the specification *)

(** Two characters that are equal up to the case of a letter: the same
    character, or a capital letter and its small letter. *)
Definition case_variant (a b : ascii) : bool :=
  Ascii.eqb a b
  || (is_upper a && N.eqb (N_of_ascii a + 32) (N_of_ascii b))
  || (is_upper b && N.eqb (N_of_ascii b + 32) (N_of_ascii a)).

(** Two strings that are equal up to case. *)
Fixpoint ci_eq (a b : string) : bool :=
  match a, b with
  | EmptyString, EmptyString => true
  | String x a', String y b' => case_variant x y && ci_eq a' b'
  | _, _ => false
  end.

(** [p] is a case-insensitive substring of [s]: some contiguous run of [s]
    equals [p] up to case. *)
Definition ci_substring (p s : string) : Prop :=
  exists pre mid post,
    s = (pre ++ mid ++ post)%string /\ ci_eq mid p = true.

(** The value of a non-empty string of decimal digits, as [int] reads it. *)
Fixpoint digits_value (acc : N) (s : string) : option N :=
  match s with
  | EmptyString => Some acc
  | String c r =>
      if is_digit c
      then digits_value (acc * 10 + (N_of_ascii c - 48))%N r
      else None
  end.

Definition int_of_string (s : string) : option N :=
  match s with
  | EmptyString => None
  | _ => digits_value 0%N s
  end.

(** The text before and after the first full stop. *)
Fixpoint split_dot (s : string) : option (string * string) :=
  match s with
  | EmptyString => None
  | String c r =>
      if Ascii.eqb c "."%char then Some (EmptyString, r)
      else
        match split_dot r with
        | Some (a, b) => Some (String c a, b)
        | None => None
        end
  end.

(** A version read as the pair of integers (major, minor). *)
Definition version_pair (v : string) : option (N * N) :=
  match split_dot v with
  | Some (a, b) =>
      match int_of_string a, int_of_string b with
      | Some major, Some minor => Some (major, minor)
      | _, _ => None
      end
  | None => None
  end.

(** The order of integer pairs: by major, then by minor. *)
Definition pair_le (p q : N * N) : Prop :=
  (fst p < fst q)%N \/ (fst p = fst q /\ (snd p <= snd q)%N).

(** The numeric order of versions. *)
Definition version_le (v w : string) : Prop :=
  exists p q, version_pair v = Some p /\ version_pair w = Some q /\ pair_le p q.

(** The shape of the versions that a scan produces: two digits, a full stop,
    two digits. *)
Definition is_NN_NN (v : string) : bool :=
  match v with
  | String a (String b (String d (String c (String e EmptyString)))) =>
      is_digit a && is_digit b && Ascii.eqb d "."%char
      && is_digit c && is_digit e
  | _ => false
  end.

(** The 256 characters. *)
Definition all_ascii : list ascii := map ascii_of_nat (seq 0 256).

(** The value of a decimal digit. *)
Definition digit_value (c : ascii) : N := (N_of_ascii c - 48)%N.

(** A version as one number, the major part counting for a hundred; zero
    for a text that is not a version. *)
Definition version_key (v : string) : N :=
  match version_pair v with
  | Some (major, minor) => (major * 100 + minor)%N
  | None => 0%N
  end.

(** The order that a key function puts on the elements of a list. *)
Definition key_le {A : Type} (key : A -> N) (x y : A) : Prop :=
  (key x <= key y)%N.

(** The test of the inner loop of the incoming relationships. *)
Definition refers_to (t : Table.t) (c : Constraint.t) : bool :=
  is_foreign c
  && String.eqb (upper (Constraint.target_table c)) (upper (Table.name t)).

(** All constraints of a schema, table after table. *)
Definition all_constraints (s : Schema.t) : list Constraint.t :=
  flat_map Table.constraints (dict_values (Schema.tables s)).

(** The foreign keys of a schema with their owning tables, table after
    table. *)
Definition foreign_keys (s : Schema.t) : list (Table.t * Constraint.t) :=
  flat_map
    (fun t => map (pair t) (filter is_foreign (Table.constraints t)))
    (dict_values (Schema.tables s)).

(** What it is for [value] to be the attribute [key] of [elem] with
    [default] for a missing attribute, said of the attribute pairs of the
    element: [value] is the text paired with [key] when there is such a
    pair, and [default] when no pair has the key. *)
Definition attribute (elem : Elem) (key default value : string) : Prop :=
  (forall v, In (key, v) (attrib elem) -> value = v)
  /\ (~ In key (dict_keys (attrib elem)) -> value = default).

(** Text made of characters below 128, the text on which [upper], [lower],
    [is_space] and the patterns below are exactly Python's. *)
Definition is_ascii_char (c : ascii) : bool := (N_of_ascii c <? 128)%N.

Fixpoint is_ascii (s : string) : bool :=
  match s with
  | EmptyString => true
  | String c r => is_ascii_char c && is_ascii r
  end.

Definition ascii_constraint (c : Constraint.t) : bool :=
  is_ascii (Constraint.name c) && is_ascii (Constraint.fields c)
  && is_ascii (Constraint.target_table c)
  && is_ascii (Constraint.target_fields c).

Definition ascii_table (t : Table.t) : bool :=
  is_ascii (Table.name t)
  && forallb ascii_constraint (Table.constraints t)
  && forallb (fun f => is_ascii (Field.name f)) (Table.fields t).

(** A schema whose table, field and constraint names, field lists and
    targets are all made of characters below 128. *)
Definition ascii_schema (s : Schema.t) : bool :=
  forallb ascii_table (dict_values (Schema.tables s)).

(** A directory listing whose names are made of characters below 128. *)
Definition ascii_listing (listing : option (list (string * bool))) : bool :=
  match listing with
  | None => true
  | Some l => forallb (fun p => is_ascii (fst p)) l
  end.

(** ** Sample documents *)

Definition table_elem (name : string) (children : list Elem) : Elem :=
  mkElem "TABLE" [("NAME", name)] children.

Definition schema_elem (tables : list Elem) : Elem :=
  mkElem "SCHEMA" [("VERSION", "24.12"); ("DBTYPE", "ORACLE")] tables.

Definition field_elem (name datatype : string) : Elem :=
  mkElem "FIELD" [("NAME", name); ("DATATYPE", datatype)] [].

Definition foreign_elem (name fields target target_fields : string) : Elem :=
  mkElem "CONSTRAINT"
         [("NAME", name); ("TYPE", "FOREIGN"); ("FIELDS", fields);
          ("TARGETTABLE", target); ("TARGETFIELDS", target_fields)] [].

(** A table whose name is not in capitals. *)
Definition mixed_case_schema : Schema.t :=
  Schema.from_xml "schema.xml"
    (schema_elem [table_elem "Activity" [field_elem "task_id" "integer"]]).

Definition lower_case_schema : Schema.t :=
  Schema.from_xml "schema.xml"
    (schema_elem [table_elem "activity" [field_elem "task_id" "integer"]]).

Definition capitals_schema : Schema.t :=
  Schema.from_xml "schema.xml"
    (schema_elem [table_elem "ACTIVITY" [field_elem "task_id" "integer"]]).

(** A primary key that carries target attributes. *)
Definition primary_with_target : Elem :=
  mkElem "CONSTRAINT"
         [("NAME", "PK_TASK"); ("TYPE", "PRIMARY"); ("FIELDS", "TASK_ID");
          ("TARGETTABLE", "PROJECT"); ("TARGETFIELDS", "PROJ_ID")] [].

Definition primary_with_target_schema : Schema.t :=
  Schema.from_xml "schema.xml"
    (schema_elem [table_elem "TASK" [primary_with_target]]).

(** The table PROJWBS with a foreign key to itself, next to a table that
    refers to it. *)
Definition projwbs_schema : Schema.t :=
  Schema.from_xml "schema.xml"
    (schema_elem
       [table_elem "PROJWBS"
          [foreign_elem "FK_PROJWBS_PARENT" "PARENT_WBS_ID" "PROJWBS" "WBS_ID"];
        table_elem "TASK"
          [foreign_elem "FK_TASK_WBS" "WBS_ID" "PROJWBS" "WBS_ID"]]).


(** A registry whose entries were made by hand, with versions that no scan
    produces. *)
Definition entry_9_9 : SchemaEntry.t :=
  SchemaEntry.mk "eppm" "9.9" "schemas/a.xml".
Definition entry_10_1 : SchemaEntry.t :=
  SchemaEntry.mk "eppm" "10.1" "schemas/b.xml".

Definition hand_made_registry : SchemaRegistry.t :=
  SchemaRegistry.mk "schemas"
    (dict_set (SchemaEntry.key entry_10_1) entry_10_1
       (dict_set (SchemaEntry.key entry_9_9) entry_9_9 [])).

Definition scanned_registry : SchemaRegistry.t :=
  SchemaRegistry.init "schemas"
    (Some [("eppm_24_12_schema.xml", true);
           ("EPPM_09_09_schema.XML", true);
           ("ppm_23_04_schema.xml", true);
           ("eppm_10_01_schema.xml", true);
           ("notes.txt", true);
           ("eppm_99_99_schema.xml", false)]).

(** A configuration file whose only byte is FF. *)
Definition byte_ff_config : config_file := Contents [Byte.xff].

(** ** Further tools of the server (p6schema_mcp.py) *)

Module TableSummary.
Record t : Type := mk {
  name : string;
  description : string;
  field_count : nat
}.

Definition of_table (t : Table.t) : TableSummary.t :=
  {| name := Table.name t;
     description := Table.description t;
     field_count := List.length (Table.fields t) |}.
End TableSummary.

Definition table_name_lt (a b : Table.t) : bool :=
  String.ltb (Table.name a) (Table.name b).

(** [list_tables]: the tables sorted by name, one summary for each. *)
Definition list_tables (s : Schema.t) : list TableSummary.t :=
  let tables := sorted_by table_name_lt (dict_values (Schema.tables s)) in
  map TableSummary.of_table tables.

Module ConstraintRow.
Record t : Type := mk {
  table : string;
  name : string;
  type : string;
  fields : string;
  target_table : string;
  target_fields : string
}.

Definition of_constraint (table : Table.t) (c : Constraint.t)
  : ConstraintRow.t :=
  {| table := Table.name table;
     name := Constraint.name c;
     type := Constraint.type c;
     fields := Constraint.fields c;
     target_table := Constraint.target_table c;
     target_fields := Constraint.target_fields c |}.
End ConstraintRow.

(** The [filter_type] chosen by [get_constraints]; [None] is Python's
    [None]. *)
Definition filter_type_of (constraint_type : string) : option string :=
  if String.eqb constraint_type "fk" then Some "FOREIGN"
  else if String.eqb constraint_type "pk" then Some "PRIMARY"
  else None.

(** [filter_type is None or c.type == filter_type] *)
Definition passes_filter (filter_type : option string) (c : Constraint.t)
  : bool :=
  match filter_type with
  | None => true
  | Some ft => String.eqb (Constraint.type c) ft
  end.

Definition get_constraints (s : Schema.t) (constraint_type : string)
  : list ConstraintRow.t :=
  let filter_type := filter_type_of constraint_type in
  fold_left
    (fun result table =>
       fold_left
         (fun result c =>
            if passes_filter filter_type c
            then result ++ [ConstraintRow.of_constraint table c]
            else result)
         (Table.constraints table) result)
    (dict_values (Schema.tables s)) [].

(** [sum(...)] of numbers: from zero, adding from the left. *)
Definition py_sum (l : list nat) : nat := fold_left Nat.add l 0.

(** One turn of the loop that counts the datatypes:
    [datatypes[f.datatype] = datatypes.get(f.datatype, 0) + 1]. *)
Definition count_datatype (datatypes : dict nat) (f : Field.t) : dict nat :=
  dict_set (Field.datatype f)
           (match dict_get (Field.datatype f) datatypes with
            | Some n => n
            | None => 0
            end + 1)
           datatypes.

Record statistics : Type := mk_statistics {
  stat_version : string;
  stat_tables : nat;
  stat_fields : nat;
  stat_indexes : nat;
  stat_constraints : nat;
  stat_foreign_keys : nat;
  stat_datatypes : dict nat
}.

(** [get_stats], and the same numbers in [cmd_stats]. *)
Definition get_stats (s : Schema.t) : statistics :=
  let tables := dict_values (Schema.tables s) in
  let total_fields :=
    py_sum (map (fun t => List.length (Table.fields t)) tables) in
  let total_indexes :=
    py_sum (map (fun t => List.length (Table.indexes t)) tables) in
  let total_constraints :=
    py_sum (map (fun t => List.length (Table.constraints t)) tables) in
  let total_fks :=
    py_sum
      (flat_map
         (fun t =>
            map (fun _ => 1)
                (filter (fun c => String.eqb (Constraint.type c) "FOREIGN")
                        (Table.constraints t)))
         tables) in
  let datatypes :=
    fold_left
      (fun datatypes t => fold_left count_datatype (Table.fields t) datatypes)
      tables [] in
  {| stat_version := Schema.version s;
     stat_tables := List.length (Schema.tables s);
     stat_fields := total_fields;
     stat_indexes := total_indexes;
     stat_constraints := total_constraints;
     stat_foreign_keys := total_fks;
     stat_datatypes := datatypes |}.

Module FieldRow.
Record t : Type := mk {
  table : string;
  field : string;
  datatype : string;
  length : string;
  notnull : bool;
  description : string
}.

(** [a or b] on two strings: [a] unless it is empty. *)
Definition str_or (a b : string) : string :=
  match a with
  | EmptyString => b
  | _ => a
  end.

Definition of_field (t : Table.t) (f : Field.t) : FieldRow.t :=
  {| table := Table.name t;
     field := Field.name f;
     datatype := Field.datatype f;
     length := str_or (Field.charlength f) (str_or (Field.dataprecision f) "");
     notnull := String.eqb (Field.notnull f) "Y";
     description := Field.description f |}.
End FieldRow.

(** [get_fields]; [table] is [None] or a string, and the empty string
    counts as no table ([if table:]). *)
Definition get_fields (s : Schema.t) (table : option string)
  : tool_result (list FieldRow.t) :=
  let rows (tables : list Table.t) :=
    fold_left
      (fun result t =>
         fold_left (fun result f => result ++ [FieldRow.of_field t f])
                   (Table.fields t) result)
      tables [] in
  match table with
  | Some (String c r) =>
      match Schema.get_table s (String c r) with
      | None => TableNotFound (String c r)
      | Some t => Answer (rows [t])
      end
  | _ => Answer (rows (sorted_by table_name_lt (dict_values (Schema.tables s))))
  end.

(** ** Lookup in the registry *)

(** The characters below 128 that [str.strip()] takes for white space:
    tab, line feed, vertical tab, form feed, carriage return, the four
    separators 28 to 31, and the space. *)
Definition is_space (c : ascii) : bool :=
  (in_range 9 13 (N_of_ascii c) || in_range 28 32 (N_of_ascii c)).

Fixpoint lstrip (s : string) : string :=
  match s with
  | EmptyString => EmptyString
  | String c r => if is_space c then lstrip r else s
  end.

Fixpoint rstrip (s : string) : string :=
  match s with
  | EmptyString => EmptyString
  | String c r =>
      match rstrip r with
      | EmptyString => if is_space c then EmptyString else String c EmptyString
      | r' => String c r'
      end
  end.

(** [s.strip()] *)
Definition strip (s : string) : string := rstrip (lstrip s).

(** [re.match(r"^\d{2}\.\d{2}$", s)] as a truth value. *)
Definition match_bare_version (s : string) : bool :=
  match match_digits2 s with
  | Some (_, String d r) =>
      if Ascii.eqb d "."%char then
        match match_digits2 r with
        | Some (_, rest) => match_end rest
        | None => false
        end
      else false
  | _ => false
  end.

(** [SchemaRegistry.get] *)
Definition registry_get (self : SchemaRegistry.t) (specifier : string)
  : option SchemaEntry.t :=
  let specifier := strip (lower specifier) in
  let specifier :=
    if negb (str_in ":" specifier) && match_bare_version specifier
    then ("eppm:" ++ specifier)%string
    else specifier in
  dict_get specifier (SchemaRegistry._entries self).

(** [available_keys] *)
Definition available_keys (self : SchemaRegistry.t) : list string :=
  sorted_by String.ltb (dict_keys (SchemaRegistry._entries self)).

(** The order of the pairs (application, version) as Python compares
    tuples: by the first components unless they are equal. *)
Definition app_version_lt (a b : SchemaEntry.t) : bool :=
  if String.eqb (SchemaEntry.application a) (SchemaEntry.application b)
  then String.ltb (SchemaEntry.version a) (SchemaEntry.version b)
  else String.ltb (SchemaEntry.application a) (SchemaEntry.application b).

(** [list_all] *)
Definition list_all (self : SchemaRegistry.t) : list SchemaEntry.t :=
  sorted_by app_version_lt (dict_values (SchemaRegistry._entries self)).

(** [display_name] *)
Definition display_name (self : SchemaEntry.t) : string :=
  ((if String.eqb (SchemaEntry.application self) "eppm" then "EPPM" else "PPM")
   ++ " " ++ SchemaEntry.version self)%string.

(** ** Further notions used in the statements *)

(** All fields of a schema, table after table. *)
Definition all_fields (s : Schema.t) : list Field.t :=
  flat_map Table.fields (dict_values (Schema.tables s)).

(** How many of the fields have the datatype [d]. *)
Definition count_with_datatype (d : string) (l : list Field.t) : nat :=
  List.length (filter (fun f => String.eqb d (Field.datatype f)) l).

(** A list in ascending order of the texts that [key] gives. *)
Definition ascending {A : Type} (key : A -> string) (l : list A) : Prop :=
  StronglySorted (fun a b => String.leb (key a) (key b) = true) l.

(** What the loop over the common names adds for one name. *)
Definition modified_entry (s1 s2 : Schema.t) (name : string)
  : list modified_table :=
  match dict_get name (Schema.tables s1), dict_get name (Schema.tables s2) with
  | Some t1, Some t2 =>
      if negb (set_eqb (field_names t1) (field_names t2)) then
        [{| mod_table := name;
            added_fields :=
              sorted_by String.ltb
                        (set_diff (field_names t2) (field_names t1));
            removed_fields :=
              sorted_by String.ltb
                        (set_diff (field_names t1) (field_names t2)) |}]
      else []
  | _, _ => []
  end.

(** A text of exactly two decimal digits. *)
Definition is_two_digits (g : string) : bool :=
  match g with
  | String a (String b EmptyString) => is_digit a && is_digit b
  | _ => false
  end.

(** The last character of a text is not white space. *)
Fixpoint ends_nonspace (s : string) : bool :=
  match s with
  | EmptyString => false
  | String c EmptyString => negb (is_space c)
  | String _ r => ends_nonspace r
  end.

(** The first character of a text is not white space. *)
Definition starts_nonspace (s : string) : bool :=
  match s with
  | EmptyString => false
  | String c _ => negb (is_space c)
  end.

(** What a scan says of an entry under a key, given the listing. *)
Definition scanned_entry (schema_dir : string) (l : list (string * bool))
           (k : string) (e : SchemaEntry.t) : Prop :=
  k = SchemaEntry.key e
  /\ (SchemaEntry.application e = "eppm" \/ SchemaEntry.application e = "ppm")
  /\ is_NN_NN (SchemaEntry.version e) = true
  /\ exists name g1 g2 g3,
       In (name, true) l
       /\ FILENAME_PATTERN name = Some (g1, g2, g3)
       /\ SchemaEntry.application e = lower g1
       /\ SchemaEntry.version e = (g2 ++ "." ++ g3)%string
       /\ SchemaEntry.path e = (schema_dir ++ "/" ++ name)%string.

(** The rows of [get_fields] for one table. *)
Definition field_rows (t : Table.t) : list FieldRow.t :=
  map (FieldRow.of_field t) (Table.fields t).

(** The order of the registry listing: by application, then by version,
    both as texts. *)
Definition app_version_le (a b : SchemaEntry.t) : Prop :=
  String.ltb (SchemaEntry.application a) (SchemaEntry.application b) = true
  \/ (SchemaEntry.application a = SchemaEntry.application b
      /\ String.leb (SchemaEntry.version a) (SchemaEntry.version b) = true).

(** ** The configuration tools (config_set_default, config_clear_default) *)

(** The values that [json.loads] returns; a number is kept as it is
    written. *)
#[local] Unset Elimination Schemes.
Inductive json : Type :=
| JNull
| JBool (b : bool)
| JNumber (literal : string)
| JString (s : string)
| JArray (items : list json)
| JObject (members : dict json).
#[local] Set Elimination Schemes.

(** The exceptions that leave a configuration tool: one that [load_config]
    lets through, or the TypeError of an operation that the loaded value
    does not support. *)
Inductive tool_exception : Type :=
| Uncaught (e : py_exception)
| TypeError.

Inductive tool_outcome (A : Type) : Type :=
| Done (a : A)
| Failed (e : tool_exception).
Arguments Done {A} a.
Arguments Failed {A} e.

(** What a tool does to the configuration file: nothing,
    [save_config(config)], or [CONFIG_FILE.unlink(missing_ok=True)]. *)
Inductive file_effect : Type :=
| NoEffect
| SaveConfig (config : json)
| Unlink.

(** [key in config]; [None] is the TypeError for a value that is not a
    container. *)
Definition json_contains (key : string) (config : json) : option bool :=
  match config with
  | JObject d => Some (set_mem key (dict_keys d))
  | JArray l =>
      Some (existsb (fun x => match x with
                              | JString s => String.eqb s key
                              | _ => false
                              end) l)
  | JString s => Some (str_in key s)
  | _ => None
  end.

(** [del d[key]] on a dictionary that has the key. *)
Definition dict_del {V : Type} (key : string) (d : dict V) : dict V :=
  filter (fun item => negb (String.eqb (fst item) key)) d.

Inductive clear_message : Type :=
| DefaultCleared
| NoDefaultWasSet.

(** The body of [config_clear_default] after [load_config]. *)
Definition clear_default (config : json)
  : tool_outcome (clear_message * file_effect) :=
  match json_contains "default_schema" config with
  | None => Failed TypeError
  | Some false => Done (NoDefaultWasSet, NoEffect)
  | Some true =>
      match config with
      | JObject d =>
          let d' := dict_del "default_schema" d in
          match d' with
          | [] => Done (DefaultCleared, Unlink)
          | _ => Done (DefaultCleared, SaveConfig (JObject d'))
          end
      | _ => Failed TypeError
      end
  end.

Inductive set_message : Type :=
| SchemaNotFound (schema : string) (available : list string)
| DefaultSet (display_name key default_schema : string).

(** The assignment [config["default_schema"] = schema]. *)
Definition set_default_key (schema : string) (config : json)
  : tool_outcome json :=
  match config with
  | JObject d => Done (JObject (dict_set "default_schema" (JString schema) d))
  | _ => Failed TypeError
  end.

Section ConfigTools.
Variable json_loads : list N -> outcome json.

(** [load_config] of these tools: the empty mapping is [{}]. *)
Definition load_config_json (f : config_file) : outcome json :=
  load_config json json_loads (JObject []) f.

Definition config_clear_default (f : config_file)
  : tool_outcome (clear_message * file_effect) :=
  match load_config_json f with
  | Raise e => Failed (Uncaught e)
  | Return config => clear_default config
  end.

(** [config_set_default] *)
Definition config_set_default (registry : SchemaRegistry.t)
           (f : config_file) (schema : string)
  : tool_outcome (set_message * file_effect) :=
  match registry_get registry schema with
  | None => Done (SchemaNotFound schema (available_keys registry), NoEffect)
  | Some entry =>
      match load_config_json f with
      | Raise e => Failed (Uncaught e)
      | Return config =>
          match set_default_key schema config with
          | Failed e => Failed e
          | Done config' =>
              Done (DefaultSet (display_name entry) (SchemaEntry.key entry)
                               schema,
                    SaveConfig config')
          end
      end
  end.
End ConfigTools.

(** ** Resolving a specifier (resolve_schema_path) *)

(** A resolved path: the path of a registry entry, or [Path(specifier)]. *)
Inductive resolved_path : Type :=
| EntryPath (path : string)
| SpecifierPath (specifier : string).

(** The three ValueErrors of [resolve_schema_path]. *)
Inductive resolve_error : Type :=
| NoEppmSchemas
| SchemaFileNotFound (specifier : string)
| SchemaNotInRegistry (specifier : string) (available : list string).

(** [not specifier] for [None] or a string. *)
Definition is_falsy (specifier : option string) : bool :=
  match specifier with
  | None => true
  | Some EmptyString => true
  | Some _ => false
  end.

Section Resolve.
(** [Path(specifier).suffix] and [Path(specifier).exists()] are taken from
    the library and the file system as they come. *)
Variable path_suffix : string -> string.
Variable path_exists : string -> bool.

(** [resolve_schema_path]; [default_schema] is what [get_default_schema()]
    returns, [None] or a string. *)
Definition resolve_schema_path (registry : SchemaRegistry.t)
           (default_schema : option string) (specifier : option string)
  : resolved_path + resolve_error :=
  let specifier := if is_falsy specifier then default_schema else specifier in
  match specifier with
  | None | Some EmptyString =>
      match SchemaRegistry.get_latest registry "eppm" with
      | Some latest => inl (EntryPath (SchemaEntry.path latest))
      | None => inr NoEppmSchemas
      end
  | Some specifier =>
      if String.eqb (path_suffix specifier) ".xml"
         || str_in "/" specifier || str_in "\" specifier
      then
        if path_exists specifier then inl (SpecifierPath specifier)
        else inr (SchemaFileNotFound specifier)
      else
        match registry_get registry specifier with
        | Some entry => inl (EntryPath (SchemaEntry.path entry))
        | None =>
            inr (SchemaNotInRegistry specifier (available_keys registry))
        end
  end.
End Resolve.

(** * Properties *)

(** ** Loops that append *)

Section Loops.
Context {A B : Type}.

(** A loop that appends [f x] for the [x] that pass [p] is a [filter]
    followed by a [map]. *)
Lemma loop_append_filter (p : A -> bool) (f : A -> B) (l : list A) :
  forall acc,
    fold_left (fun acc x => if p x then acc ++ [f x] else acc) l acc
    = acc ++ map f (filter p l).
Proof.
  induction l as [|x l IH]; intros acc; simpl.
  - now rewrite app_nil_r.
  - rewrite IH. destruct (p x); simpl; [|reflexivity].
    now rewrite <- app_assoc.
Qed.

(** Two nested loops of that kind are a [flat_map]. *)
Lemma loop_nested {C : Type} (body : C -> list B -> list B)
      (items : C -> list B) (l : list C) :
  (forall c acc, body c acc = acc ++ items c) ->
  forall acc,
    fold_left (fun acc c => body c acc) l acc = acc ++ flat_map items l.
Proof.
  intros Hbody. induction l as [|c l IH]; intros acc; simpl.
  - now rewrite app_nil_r.
  - rewrite IH, Hbody. now rewrite <- app_assoc.
Qed.
End Loops.

(** ** Strings *)

Lemma startswith_empty (s : string) : startswith "" s = true.
Proof. now destruct s. Qed.

Lemma str_in_empty (s : string) : str_in "" s = true.
Proof. destruct s; reflexivity. Qed.

Lemma startswith_spec (p s : string) :
  startswith p s = true <-> exists post, s = (p ++ post)%string.
Proof.
  revert s. induction p as [|a p IH]; intros s.
  - rewrite startswith_empty. split; [intros _; now exists s | reflexivity].
  - destruct s as [|b s]; simpl.
    + split; [discriminate | intros [post H]; discriminate].
    + rewrite andb_true_iff, Ascii.eqb_eq, IH. split.
      * intros [-> [post ->]]. now exists post.
      * intros [post H]. injection H as -> ->. split; [reflexivity|now exists post].
  Qed.

Lemma str_in_spec (p s : string) :
  str_in p s = true <-> exists pre post, s = (pre ++ p ++ post)%string.
Proof.
  induction s as [|b s IH].
  - simpl. rewrite orb_false_r, startswith_spec. split.
    + intros [post H]. now exists ""%string, post.
    + intros [pre [post H]]. destruct pre; [now exists post | discriminate].
  - cbn [str_in]. rewrite orb_true_iff, startswith_spec, IH. split.
    + intros [[post H] | [pre [post H]]].
      * now exists ""%string, post.
      * exists (String b pre), post. simpl. now rewrite H.
    + intros [pre [post H]]. destruct pre as [|c pre].
      * left. now exists post.
      * right. simpl in H. injection H as _ H. now exists pre, post.
Qed.

Lemma upper_append (a b : string) :
  upper (a ++ b) = (upper a ++ upper b)%string.
Proof. induction a as [|c a IH]; simpl; [reflexivity | now rewrite IH]. Qed.

(** A split of [upper s] comes from a split of [s]. *)
Lemma upper_split (s x y : string) :
  upper s = (x ++ y)%string ->
  exists a b, s = (a ++ b)%string /\ upper a = x /\ upper b = y.
Proof.
  revert s. induction x as [|c x IH]; intros s H.
  - exists ""%string, s. auto.
  - destruct s as [|d s]; [discriminate|]. simpl in H. injection H as Hc H.
    destruct (IH _ H) as [a [b [-> [Ha Hb]]]].
    exists (String d a), b. simpl. now rewrite Hc, Ha.
Qed.

Lemma all_ascii_complete (a : ascii) : In a all_ascii.
Proof.
  rewrite <- (ascii_nat_embedding a). apply in_map, in_seq.
  pose proof (nat_ascii_bounded a). lia.
Qed.

Lemma case_variant_upper (a b : ascii) :
  case_variant a b = true <-> upper_ascii a = upper_ascii b.
Proof.
  assert (Hall :
    forallb (fun a => forallb (fun b =>
      Bool.eqb (case_variant a b) (Ascii.eqb (upper_ascii a) (upper_ascii b)))
      all_ascii) all_ascii = true) by (vm_compute; reflexivity).
  rewrite forallb_forall in Hall.
  specialize (Hall a (all_ascii_complete a)).
  rewrite forallb_forall in Hall.
  specialize (Hall b (all_ascii_complete b)).
  apply eqb_prop in Hall. rewrite Hall. apply Ascii.eqb_eq.
Qed.

Lemma ci_eq_upper (a b : string) :
  ci_eq a b = true <-> upper a = upper b.
Proof.
  revert b. induction a as [|x a IH]; intros [|y b]; simpl;
    try (split; [reflexivity || discriminate | reflexivity || discriminate]).
  rewrite andb_true_iff, case_variant_upper, IH. split.
  - intros [-> ->]. reflexivity.
  - intros H. injection H as H1 H2. auto.
Qed.

(** The test of the code, [pattern.upper() in text.upper()], is the
    case-insensitive substring of the specification. *)
Lemma str_in_upper_spec (p s : string) :
  str_in (upper p) (upper s) = true <-> ci_substring p s.
Proof.
  rewrite str_in_spec. unfold ci_substring. split.
  - intros [pre [post H]].
    apply upper_split in H. destruct H as [a [r [-> [Ha Hr]]]].
    apply upper_split in Hr. destruct Hr as [m [b [-> [Hm Hb]]]].
    exists a, m, b. split; [reflexivity|]. now apply ci_eq_upper.
  - intros [pre [mid [post [-> H]]]]. apply ci_eq_upper in H.
    exists (upper pre), (upper post).
    now rewrite !upper_append, H.
Qed.

(** ** Parsing of fields, indexes and constraints *)

(** The attribute dictionary of an element has each key once; [elem.get]
    then gives the text paired with the key, or the default when no pair has
    the key. *)
Lemma elem_get_attribute (elem : Elem) (key default : string) :
  NoDup (dict_keys (attrib elem)) ->
  attribute elem key default (elem_get elem key default).
Proof.
  unfold attribute, elem_get. generalize (attrib elem) as d.
  induction d as [|[k0 v0] d IH]; intros Hd; simpl.
  - split; [intros v [] | reflexivity].
  - inversion Hd as [|? ? Hk0 Hd']; subst.
    destruct (IH Hd') as [IH1 IH2].
    destruct (String.eqb key k0) eqn:E.
    + apply String.eqb_eq in E. subst k0. split.
      * intros v [H|H]; [now injection H as -> |].
        exfalso. apply Hk0. unfold dict_keys.
        change key with (fst (key, v)). now apply in_map.
      * intros H. exfalso. apply H. now left.
    + apply String.eqb_neq in E. split.
      * intros v [H|H]; [injection H as -> _; congruence | now apply IH1].
      * intros H. apply IH2. intros Hin. apply H. now right.
Qed.

(** C7. [Field.from_xml] and [Index.from_xml] are total.  Of an element
    whose attributes have each key once, every field of the record is the
    text that the element pairs with the attribute, as it is; when the
    element has no such attribute the field is "N" for NOTNULL, "N" for
    IDCOLUMN, "NONUNIQUE" for UNIQUENESS and the empty string for every
    other attribute. *)
Theorem from_xml_copies_or_defaults (elem : Elem) :
  NoDup (dict_keys (attrib elem)) ->
  let f := Field.from_xml elem in
  let i := Index.from_xml elem in
  (attribute elem "NAME" "" (Field.name f)
   /\ attribute elem "DATATYPE" "" (Field.datatype f)
   /\ attribute elem "CHARLENGTH" "" (Field.charlength f)
   /\ attribute elem "DATAPRECISION" "" (Field.dataprecision f)
   /\ attribute elem "DATASCALE" "" (Field.datascale f)
   /\ attribute elem "NOTNULL" "N" (Field.notnull f)
   /\ attribute elem "DEFAULT" "" (Field.default f)
   /\ attribute elem "DESC" "" (Field.description f)
   /\ attribute elem "IDCOLUMN" "N" (Field.idcolumn f))
  /\ (attribute elem "NAME" "" (Index.name i)
      /\ attribute elem "FIELD" "" (Index.fields i)
      /\ attribute elem "UNIQUENESS" "NONUNIQUE" (Index.uniqueness i)
      /\ attribute elem "TABLESPACE" "" (Index.tablespace i)).
Proof.
  intros Hd. cbn zeta. unfold Field.from_xml, Index.from_xml.
  cbn [Field.name Field.datatype Field.charlength Field.dataprecision
       Field.datascale Field.notnull Field.default Field.description
       Field.idcolumn Index.name Index.fields Index.uniqueness
       Index.tablespace].
  split; [|split; [|split; [|split]]];
    repeat (split; [now apply elem_get_attribute|]);
    now apply elem_get_attribute.
Qed.

Lemma from_xml_copies_or_defaults_witness :
  let elem :=
    mkElem "FIELD"
           [("NAME", "task_id"); ("DATATYPE", "integer"); ("NOTNULL", "Y")]
           [] in
  Field.name (Field.from_xml elem) = "task_id"
  /\ Field.notnull (Field.from_xml elem) = "Y"
  /\ Field.idcolumn (Field.from_xml elem) = "N"
  /\ Index.uniqueness (Index.from_xml elem) = "NONUNIQUE".
Proof.
  intros elem.
  assert (Hd : NoDup (dict_keys (attrib elem))).
  { repeat (constructor; [simpl; intuition discriminate|]). constructor. }
  destruct (from_xml_copies_or_defaults elem Hd)
    as [(Hname & _ & _ & _ & _ & Hnotnull & _ & _ & Hid) (_ & _ & Huniq & _)].
  split; [apply Hname; left; reflexivity|].
  split; [apply Hnotnull; right; right; left; reflexivity|].
  split; [apply Hid; simpl; intuition discriminate|].
  apply Huniq. simpl. intuition discriminate.
Defined.

(** C5, as the code has it.  Of an element whose attributes have each key
    once, [Constraint.from_xml] makes the target table and the target
    fields the texts that the element pairs with TARGETTABLE and
    TARGETFIELDS, whatever the type of the constraint is, and the empty
    string for an attribute that the element does not have; so both are
    empty when the element has neither attribute. *)
Theorem constraint_targets_follow_attributes (elem : Elem) :
  NoDup (dict_keys (attrib elem)) ->
  let c := Constraint.from_xml elem in
  attribute elem "TARGETTABLE" "" (Constraint.target_table c)
  /\ attribute elem "TARGETFIELDS" "" (Constraint.target_fields c)
  /\ (~ In "TARGETTABLE" (dict_keys (attrib elem)) ->
      ~ In "TARGETFIELDS" (dict_keys (attrib elem)) ->
      Constraint.target_table c = "" /\ Constraint.target_fields c = "").
Proof.
  intros Hd. cbn zeta. unfold Constraint.from_xml.
  cbn [Constraint.target_table Constraint.target_fields].
  pose proof (elem_get_attribute elem "TARGETTABLE" "" Hd) as Ht.
  pose proof (elem_get_attribute elem "TARGETFIELDS" "" Hd) as Hf.
  split; [exact Ht|]. split; [exact Hf|].
  intros Hnt Hnf. split; [now apply Ht | now apply Hf].
Qed.

Lemma constraint_targets_follow_attributes_witness :
  Constraint.type (Constraint.from_xml primary_with_target) = "PRIMARY"
  /\ Constraint.target_table (Constraint.from_xml primary_with_target)
     = "PROJECT"
  /\ Constraint.target_fields (Constraint.from_xml primary_with_target)
     = "PROJ_ID".
Proof.
  assert (Hd : NoDup (dict_keys (attrib primary_with_target))).
  { repeat (constructor; [simpl; intuition discriminate|]). constructor. }
  destruct (constraint_targets_follow_attributes primary_with_target Hd)
    as (Ht & Hf & _).
  split; [reflexivity|].
  split; [apply Ht | apply Hf]; simpl; intuition.
Defined.

(** C5 fails as it is written: a PRIMARY constraint element that carries
    target attributes is parsed into a record that keeps them. *)
Lemma non_foreign_constraint_with_targets :
  ~ (forall c : Constraint.t,
        In c (all_constraints primary_with_target_schema) ->
        Constraint.type c <> "FOREIGN" ->
        Constraint.target_table c = ""
        /\ Constraint.target_fields c = "").
Proof.
  intros H.
  specialize (H (Constraint.from_xml primary_with_target)).
  destruct H as [H _].
  - left. reflexivity.
  - discriminate.
  - discriminate.
Qed.

(** ** Lookup and search of tables *)

Lemma upper_ci_eq (a b : string) :
  ci_eq a b = true -> upper a = upper b.
Proof. apply ci_eq_upper. Qed.

(** Names that are equal up to case get the same answer. *)
Lemma get_table_ci (s : Schema.t) (a b : string) :
  ci_eq a b = true -> Schema.get_table s a = Schema.get_table s b.
Proof.
  intros H. unfold Schema.get_table. now rewrite (upper_ci_eq a b H).
Qed.

(** ** The table dictionary of a parsed schema *)

Lemma dict_set_In {V : Type} (k k' : string) (v v' : V) (d : dict V) :
  In (k', v') (dict_set k v d) -> (k' = k /\ v' = v) \/ In (k', v') d.
Proof.
  induction d as [|[k0 v0] d IH]; simpl.
  - intros [H|[]]. injection H as <- <-. now left.
  - destruct (String.eqb k k0) eqn:Hk; simpl.
    + apply String.eqb_eq in Hk. subst k0.
      intros [H|H]; [injection H as <- <-; now left | now right; right].
    + intros [H|H]; [now right; left|].
      apply IH in H. tauto.
Qed.

Lemma dict_set_keys {V : Type} (k : string) (v : V) (d : dict V) :
  NoDup (dict_keys d) ->
  NoDup (dict_keys (dict_set k v d))
  /\ forall k', In k' (dict_keys (dict_set k v d)) ->
                k' = k \/ In k' (dict_keys d).
Proof.
  induction d as [|[k0 v0] d IH]; simpl; intros Hd.
  - split; [constructor; [intros []|constructor] | intros k' [<-|[]]; auto].
  - inversion Hd as [|? ? Hk0 Hd']; subst.
    destruct (String.eqb k k0) eqn:Hk; simpl.
    + split; [assumption|]. intros k' [<-|H]; auto.
    + destruct (IH Hd') as [Hnd Hin]. split.
      * constructor; [|assumption]. intros H. apply Hin in H.
        destruct H as [->|H]; [|contradiction].
        now rewrite String.eqb_refl in Hk.
      * intros k' [<-|H]; [auto|]. apply Hin in H. tauto.
Qed.

Lemma dict_get_In {V : Type} (k : string) (v : V) (d : dict V) :
  NoDup (dict_keys d) ->
  dict_get k d = Some v <-> In (k, v) d.
Proof.
  induction d as [|[k0 v0] d IH]; simpl; intros Hd.
  - split; [discriminate | intros []].
  - inversion Hd as [|? ? Hk0 Hd']; subst.
    destruct (String.eqb k k0) eqn:Hk.
    + apply String.eqb_eq in Hk. subst k0. split.
      * intros H. injection H as ->. now left.
      * intros [H|H]; [now injection H as -> |].
        exfalso. apply Hk0. unfold dict_keys.
        change k with (fst (k, v)). now apply in_map.
    + rewrite (IH Hd'). split; [now right|].
      intros [H|H]; [|assumption].
      injection H as -> _. now rewrite String.eqb_refl in Hk.
Qed.

(** In a parsed schema the keys of the table dictionary are distinct and
    each is the name of its table. *)
Lemma from_xml_tables (path : string) (root : Elem) :
  NoDup (dict_keys (Schema.tables (Schema.from_xml path root)))
  /\ forall k t, In (k, t) (Schema.tables (Schema.from_xml path root)) ->
                 Table.name t = k.
Proof.
  unfold Schema.from_xml.
  set (init := Schema.mk _ _ _ _ [] path).
  assert (H : forall l schema,
             NoDup (dict_keys (Schema.tables schema))
             /\ (forall k t, In (k, t) (Schema.tables schema) ->
                             Table.name t = k) ->
             NoDup (dict_keys
                      (Schema.tables (fold_left Schema.add_table l schema)))
             /\ (forall k t,
                    In (k, t)
                       (Schema.tables (fold_left Schema.add_table l schema)) ->
                    Table.name t = k)).
  { induction l as [|e l IH]; intros schema Hs; simpl; [exact Hs|].
    apply IH. destruct Hs as [Hnd Hnames]. simpl. split.
    - now apply dict_set_keys.
    - intros k t Hin. apply dict_set_In in Hin.
      destruct Hin as [[-> ->]|Hin]; [reflexivity | now apply Hnames]. }
  apply H. simpl. split; [constructor | intros k t []].
Qed.

(** X3.  What [get_table] computes on a parsed schema: the table whose stored
    name is the capitalised argument, letter for letter. *)
Lemma get_table_spec (path : string) (root : Elem) (name : string)
      (t : Table.t) :
  Schema.get_table (Schema.from_xml path root) name = Some t <->
  In t (dict_values (Schema.tables (Schema.from_xml path root)))
  /\ Table.name t = upper name.
Proof.
  destruct (from_xml_tables path root) as [Hnd Hnames].
  unfold Schema.get_table. rewrite (dict_get_In _ _ _ Hnd). split.
  - intros H. split; [|now apply Hnames].
    unfold dict_values. change t with (snd (upper name, t)). now apply in_map.
  - intros [Hin Hname]. unfold dict_values in Hin. apply in_map_iff in Hin.
    destruct Hin as [[k t'] [Heq Hin]]. simpl in Heq. subst t'.
    rewrite <- Hname, (Hnames k t Hin). exact Hin.
Qed.

(** C1 at a table whose stored name is not in capitals: the schema has the
    table "Activity", which equals "activity" up to case, and [get_table]
    finds nothing, because the stored name is compared as it is with the
    capitalised argument. *)
Theorem get_table_misses_mixed_case :
  (exists t, In t (dict_values (Schema.tables mixed_case_schema))
             /\ ci_eq (Table.name t) "activity" = true)
  /\ Schema.get_table mixed_case_schema "activity" = None
  /\ Schema.get_table mixed_case_schema "Activity" = None.
Proof.
  split; [|split; reflexivity].
  eexists. split; [left; reflexivity | reflexivity].
Qed.

(** The scenario of the specification, with the name in capitals. *)
Lemma get_table_capitals :
  Schema.get_table capitals_schema "activity"
  = Schema.get_table capitals_schema "ACTIVITY"
  /\ exists t, Schema.get_table capitals_schema "activity" = Some t
               /\ Table.name t = "ACTIVITY".
Proof. split; [reflexivity|]. eexists. split; reflexivity. Qed.

(** What [search_tables] computes: the tables whose stored name, as it is,
    contains the capitalised pattern. *)
Lemma search_tables_spec (s : Schema.t) (pattern : string) (t : Table.t) :
  In t (Schema.search_tables s pattern) <->
  exists name, In (name, t) (Schema.tables s)
               /\ str_in (upper pattern) name = true.
Proof.
  unfold Schema.search_tables, dict_items. rewrite in_map_iff. split.
  - intros [[name t'] [Ht H]]. simpl in Ht. subst t'.
    apply filter_In in H. now exists name.
  - intros [name [Hin Hm]]. exists (name, t). split; [reflexivity|].
    apply filter_In. now split.
Qed.

(** C2 at a table whose stored name is not in capitals: "Act" is a
    case-insensitive substring of the table name "activity", and
    [search_tables] returns nothing. *)
Theorem search_tables_misses_lower_case :
  (exists t, In t (dict_values (Schema.tables lower_case_schema))
             /\ Table.name t = "activity"
             /\ ci_substring "Act" (Table.name t))
  /\ Schema.search_tables lower_case_schema "Act" = [].
Proof.
  split; [|reflexivity].
  eexists. split; [left; reflexivity|]. split; [reflexivity|].
  exists "", "act", "ivity". split; reflexivity.
Qed.

(** ** Search of fields and relationships *)

Lemma search_fields_comprehension (s : Schema.t) (pattern : string) :
  Schema.search_fields s pattern
  = flat_map
      (fun t =>
         map (pair (Table.name t))
             (filter (fun f => str_in (upper pattern) (upper (Field.name f)))
                     (Table.fields t)))
      (dict_values (Schema.tables s)).
Proof.
  unfold Schema.search_fields.
  rewrite (loop_nested
             (fun table results =>
                fold_left
                  (fun results f =>
                     if str_in (upper pattern) (upper (Field.name f))
                     then results ++ [(Table.name table, f)] else results)
                  (Table.fields table) results)
             (fun t =>
                map (pair (Table.name t))
                    (filter
                       (fun f => str_in (upper pattern) (upper (Field.name f)))
                       (Table.fields t)))).
  - reflexivity.
  - intros t acc. apply loop_append_filter.
Qed.

Lemma filter_andb {A : Type} (p q : A -> bool) (l : list A) :
  filter (fun x => p x && q x) l = filter q (filter p l).
Proof.
  induction l as [|x l IH]; simpl; [reflexivity|].
  destruct (p x); simpl; [destruct (q x)|]; now rewrite IH.
Qed.

Lemma filter_flat_map {A B : Type} (p : B -> bool) (f : A -> list B)
      (l : list A) :
  filter p (flat_map f l) = flat_map (fun x => filter p (f x)) l.
Proof.
  induction l as [|x l IH]; simpl; [reflexivity|].
  now rewrite filter_app, IH.
Qed.

Lemma map_flat_map {A B C : Type} (g : B -> C) (f : A -> list B)
      (l : list A) :
  map g (flat_map f l) = flat_map (fun x => map g (f x)) l.
Proof.
  induction l as [|x l IH]; simpl; [reflexivity|].
  now rewrite map_app, IH.
Qed.

Lemma filter_map_comm {A B : Type} (p : B -> bool) (f : A -> B)
      (l : list A) :
  filter p (map f l) = map f (filter (fun x => p (f x)) l).
Proof.
  induction l as [|x l IH]; simpl; [reflexivity|].
  destruct (p (f x)); simpl; now rewrite IH.
Qed.

Lemma fold_left_pointwise {A B : Type} (f g : A -> B -> A) (l : list B) :
  (forall a x, f a x = g a x) ->
  forall a, fold_left f l a = fold_left g l a.
Proof.
  intros H. induction l as [|x l IH]; intros a; simpl; [reflexivity|].
  now rewrite H, IH.
Qed.

(** [search_relationships] goes through the foreign keys of the schema in
    order and keeps those that pass the five-way test. *)
Lemma search_relationships_comprehension (s : Schema.t) (pattern : string) :
  Schema.search_relationships s pattern
  = map (fun tc => Schema.relationship_of (fst tc) (snd tc))
        (filter
           (fun tc =>
              Schema.relationship_matches (upper pattern) (fst tc) (snd tc))
           (foreign_keys s)).
Proof.
  unfold Schema.search_relationships, foreign_keys.
  rewrite (loop_nested
             (fun table results =>
                fold_left
                  (fun results c =>
                     if negb (String.eqb (Constraint.type c) "FOREIGN")
                     then results
                     else if Schema.relationship_matches (upper pattern) table c
                          then results ++ [Schema.relationship_of table c]
                          else results)
                  (Table.constraints table) results)
             (fun t =>
                map (Schema.relationship_of t)
                    (filter
                       (fun c =>
                          is_foreign c
                          && Schema.relationship_matches (upper pattern) t c)
                       (Table.constraints t)))).
  - rewrite filter_flat_map, map_flat_map. simpl.
    apply flat_map_ext. intros t.
    rewrite filter_map_comm, map_map, filter_andb. reflexivity.
  - intros t acc. rewrite <- loop_append_filter.
    apply fold_left_pointwise. intros acc' c. unfold is_foreign.
    destruct (String.eqb (Constraint.type c) "FOREIGN"); reflexivity.
Qed.

Lemma filter_all {A : Type} (p : A -> bool) (l : list A) :
  (forall x, In x l -> p x = true) -> filter p l = l.
Proof.
  induction l as [|x l IH]; intros H; simpl; [reflexivity|].
  rewrite (H x (or_introl eq_refl)), IH; [reflexivity|].
  intros y Hy. apply H. now right.
Qed.





(** C10. With the empty pattern [search_tables] returns every table,
    [search_fields] every pair of a table name and a field of that table,
    and [search_relationships] one record for each FOREIGN constraint. *)
Theorem empty_pattern_matches_everything (s : Schema.t) :
  Schema.search_tables s "" = dict_values (Schema.tables s)
  /\ Schema.search_fields s ""
     = flat_map (fun t => map (pair (Table.name t)) (Table.fields t))
                (dict_values (Schema.tables s))
  /\ Schema.search_relationships s ""
     = map (fun tc => Schema.relationship_of (fst tc) (snd tc))
           (foreign_keys s).
Proof.
  split; [|split].
  - unfold Schema.search_tables, dict_items, dict_values.
    rewrite filter_all; [reflexivity|].
    intros x _. apply str_in_empty.
  - rewrite search_fields_comprehension. apply flat_map_ext. intros t.
    rewrite filter_all; [reflexivity|]. intros x _. apply str_in_empty.
  - rewrite search_relationships_comprehension.
    rewrite filter_all; [reflexivity|]. intros x _.
    unfold Schema.relationship_matches. simpl. now rewrite str_in_empty.
Qed.

(** ** Relationships of a table *)

Lemma outgoing_of_comprehension (t : Table.t) :
  outgoing_of t
  = map Outgoing.of_constraint (filter is_foreign (Table.constraints t)).
Proof. unfold outgoing_of. now rewrite loop_append_filter. Qed.

Lemma incoming_of_comprehension (s : Schema.t) (t : Table.t) :
  incoming_of s t
  = flat_map
      (fun other =>
         if String.eqb (Table.name other) (Table.name t) then []
         else map (Incoming.of_constraint other)
                  (filter (refers_to t) (Table.constraints other)))
      (dict_values (Schema.tables s)).
Proof.
  unfold incoming_of.
  rewrite (loop_nested
             (fun other_table incoming =>
                if String.eqb (Table.name other_table) (Table.name t)
                then incoming
                else
                  fold_left
                    (fun incoming c =>
                       if is_foreign c &&
                          String.eqb (upper (Constraint.target_table c))
                                     (upper (Table.name t))
                       then incoming ++ [Incoming.of_constraint other_table c]
                       else incoming)
                    (Table.constraints other_table) incoming)
             (fun other =>
                if String.eqb (Table.name other) (Table.name t) then []
                else map (Incoming.of_constraint other)
                         (filter (refers_to t) (Table.constraints other)))).
  - reflexivity.
  - intros other acc.
    destruct (String.eqb (Table.name other) (Table.name t)).
    + now rewrite app_nil_r.
    + apply loop_append_filter.
Qed.

(** C4. The outgoing list has one record for each FOREIGN constraint of the
    table, a self-reference included; no record of the incoming list is
    owned by a table of that name.  For PROJWBS with a foreign key to
    itself the self-reference is the one outgoing record and the incoming
    list holds only the foreign key of the other table. *)
Theorem relationships_self_reference (s : Schema.t) (t : Table.t) :
  outgoing_of t
  = map Outgoing.of_constraint (filter is_foreign (Table.constraints t))
  /\ (forall c, In c (Table.constraints t) ->
                Constraint.type c = "FOREIGN" ->
                In (Outgoing.of_constraint c) (outgoing_of t))
  /\ (forall r, In r (incoming_of s t) -> Incoming.table r <> Table.name t)
  /\ get_relationships projwbs_schema "PROJWBS"
     = Answer
         {| rel_table := "PROJWBS";
            outgoing :=
              [Outgoing.mk "FK_PROJWBS_PARENT" "PARENT_WBS_ID" "PROJWBS"
                           "WBS_ID"];
            incoming := [Incoming.mk "TASK" "FK_TASK_WBS" "WBS_ID" "WBS_ID"];
            outgoing_count := 1;
            incoming_count := 1 |}.
Proof.
  split; [apply outgoing_of_comprehension|].
  split; [|split; [|reflexivity]].
  - intros c Hc Hf. rewrite outgoing_of_comprehension.
    apply in_map, filter_In. split; [assumption|].
    now apply String.eqb_eq.
  - intros r. rewrite incoming_of_comprehension, in_flat_map.
    intros [other [_ Hr]].
    destruct (String.eqb (Table.name other) (Table.name t)) eqn:Hname.
    + destruct Hr.
    + apply in_map_iff in Hr. destruct Hr as [c [<- _]]. simpl.
      now apply String.eqb_neq.
Qed.

(** ** Comparing a schema with itself *)

Lemma set_mem_In (x : string) (s : list string) :
  set_mem x s = true <-> In x s.
Proof.
  unfold set_mem. rewrite existsb_exists. split.
  - intros [y [Hy Heq]]. apply String.eqb_eq in Heq. now subst.
  - intros H. exists x. split; [assumption | apply String.eqb_refl].
Qed.

Lemma set_diff_self (a : list string) : set_diff a a = [].
Proof.
  unfold set_diff.
  assert (H : forall l, (forall x, In x l -> In x a) ->
                        filter (fun x => negb (set_mem x a)) l = []).
  { induction l as [|x l IH]; intros Hl; simpl; [reflexivity|].
    rewrite (proj2 (set_mem_In x a) (Hl x (or_introl eq_refl))). simpl.
    apply IH. intros y Hy. apply Hl. now right. }
  apply H. auto.
Qed.

Lemma set_inter_self (a : list string) : set_inter a a = a.
Proof.
  unfold set_inter. apply filter_all. intros x. apply set_mem_In.
Qed.

Lemma set_eqb_refl (a : list string) : set_eqb a a = true.
Proof.
  unfold set_eqb.
  assert (H : forallb (fun x => set_mem x a) a = true).
  { apply forallb_forall. intros x. apply set_mem_In. }
  now rewrite H.
Qed.

Lemma set_of_list_In (l : list string) (x : string) :
  In x (set_of_list l) -> In x l.
Proof.
  unfold set_of_list.
  assert (H : forall l acc,
             In x (fold_left
                     (fun s y => if set_mem y s then s else s ++ [y]) l acc) ->
             In x acc \/ In x l).
  { clear l. induction l as [|y l IH]; intros acc Hx; simpl in *; [auto|].
    apply IH in Hx. destruct Hx as [Hx|Hx]; [|auto].
    destruct (set_mem y acc); [auto|].
    apply in_app_or in Hx. destruct Hx as [Hx|[->|[]]]; auto. }
  intros Hx. apply H in Hx. destruct Hx as [[]|Hx]. exact Hx.
Qed.

(** A key of a dictionary has a value. *)
Lemma dict_get_key {V : Type} (d : dict V) (k : string) :
  In k (dict_keys d) -> exists v, dict_get k d = Some v.
Proof.
  induction d as [|[k' v'] d IH]; simpl; [intros []|].
  intros H. destruct (String.eqb k k') eqn:Hk; [now exists v'|].
  destruct H as [H|H]; [|now apply IH].
  subst. now rewrite String.eqb_refl in Hk.
Qed.

(** The loop over the common tables of a schema and itself adds nothing and
    meets no missing key. *)
Lemma compare_table_self (s : Schema.t) (common : list string) :
  (forall name, In name common -> In name (dict_keys (Schema.tables s))) ->
  forall modified,
    fold_left (compare_table s s) common (Some modified) = Some modified.
Proof.
  induction common as [|name common IH]; intros Hkeys modified; simpl;
    [reflexivity|].
  destruct (dict_get_key (Schema.tables s) name (Hkeys name (or_introl eq_refl)))
    as [t Ht].
  rewrite Ht, set_eqb_refl. simpl.
  apply IH. intros n Hn. apply Hkeys. now right.
Qed.

(** C8. Comparing a schema with itself returns a result, and in it the
    added tables, the removed tables and the modified tables are all
    empty. *)
Theorem compare_schemas_self (s : Schema.t) :
  exists r,
    compare_schemas s s = Some r
    /\ added_tables r = []
    /\ removed_tables r = []
    /\ modified_tables r = [].
Proof.
  unfold compare_schemas.
  rewrite set_diff_self, set_inter_self, compare_table_self.
  - eexists. repeat split.
  - intros name. apply set_of_list_In.
Qed.

(** ** The configuration file *)

Section ConfigProperties.
Variable Json : Type.
Variable json_loads : list N -> outcome Json.
Variable empty_dict : Json.

(** An absent file and a file that cannot be read give the empty
    mapping. *)
Lemma load_config_absent_or_unreadable :
  load_config Json json_loads empty_dict Absent = Return empty_dict
  /\ load_config Json json_loads empty_dict Unreadable = Return empty_dict.
Proof. split; reflexivity. Qed.

(** Text that the JSON reader rejects gives the empty mapping. *)
Lemma load_config_invalid_json (bytes : list Byte.byte) (text : list N) :
  utf8_decode (map Byte.to_N bytes) = Some text ->
  json_loads text = Raise JSONDecodeError ->
  load_config Json json_loads empty_dict (Contents bytes)
  = Return empty_dict.
Proof.
  intros Hdecode Hjson.
  unfold load_config, read_and_parse, read_text. simpl.
  now rewrite Hdecode, Hjson.
Qed.

(** C9 at a file that is not UTF-8: the file exists, [read_text] raises
    UnicodeDecodeError, the [except] clause does not name it, and
    [load_config] raises instead of returning the empty mapping. *)
Theorem load_config_raises_on_bad_utf8 :
  exists_ byte_ff_config = true
  /\ read_text byte_ff_config = Raise UnicodeDecodeError
  /\ load_config Json json_loads empty_dict byte_ff_config
     = Raise UnicodeDecodeError.
Proof. repeat split. Qed.
End ConfigProperties.

(** ** The registry *)

Lemma is_digit_bounds (c : ascii) :
  is_digit c = true -> (48 <= N_of_ascii c <= 57)%N.
Proof. unfold is_digit. rewrite andb_true_iff, !N.leb_le. tauto. Qed.

Lemma digit_not_dot (c : ascii) :
  is_digit c = true -> Ascii.eqb c "."%char = false.
Proof.
  intros H. apply is_digit_bounds in H. apply Ascii.eqb_neq.
  intros ->. simpl in H. lia.
Qed.

(** A text of the shape NN.NN is two digits, a full stop and two digits. *)
Lemma is_NN_NN_inv (v : string) :
  is_NN_NN v = true ->
  exists a b c d,
    v = String a (String b (String "."%char (String c (String d ""))))
    /\ is_digit a = true /\ is_digit b = true
    /\ is_digit c = true /\ is_digit d = true.
Proof.
  destruct v as [|a [|b [|x [|c [|d [|? ?]]]]]]; simpl; try discriminate.
  rewrite !andb_true_iff, Ascii.eqb_eq.
  intros [[[[Ha Hb] ->] Hc] Hd]. exists a, b, c, d. auto.
Qed.

Lemma version_pair_NN_NN (a b c d : ascii) :
  is_digit a = true -> is_digit b = true ->
  is_digit c = true -> is_digit d = true ->
  version_pair (String a (String b (String "."%char (String c (String d "")))))
  = Some ((10 * digit_value a + digit_value b)%N,
          (10 * digit_value c + digit_value d)%N).
Proof.
  intros Ha Hb Hc Hd. unfold version_pair. cbn [split_dot].
  rewrite (digit_not_dot a Ha), (digit_not_dot b Hb).
  replace (Ascii.eqb "."%char "."%char) with true by reflexivity.
  cbn [int_of_string digits_value]. rewrite Ha, Hb, Hc, Hd.
  unfold digit_value. f_equal. f_equal; lia.
Qed.

(** On texts of the shape NN.NN the order of strings is the order of the
    numbers. *)
Lemma ltb_NN_NN (v w : string) :
  is_NN_NN v = true -> is_NN_NN w = true ->
  String.ltb v w = (version_key v <? version_key w)%N.
Proof.
  intros Hv Hw.
  destruct (is_NN_NN_inv v Hv) as [a [b [c [d [-> [Ha [Hb [Hc Hd]]]]]]]].
  destruct (is_NN_NN_inv w Hw) as [a' [b' [c' [d' [-> [Ha' [Hb' [Hc' Hd']]]]]]]].
  unfold version_key. rewrite !version_pair_NN_NN by assumption.
  unfold digit_value.
  apply is_digit_bounds in Ha, Hb, Hc, Hd, Ha', Hb', Hc', Hd'.
  unfold String.ltb. cbn [String.compare]. unfold Ascii.compare.
  replace (N_of_ascii "."%char) with 46%N by reflexivity.
  rewrite N.compare_refl.
  destruct (N.compare_spec (N_of_ascii a) (N_of_ascii a'));
    [destruct (N.compare_spec (N_of_ascii b) (N_of_ascii b'));
     [destruct (N.compare_spec (N_of_ascii c) (N_of_ascii c'));
      [destruct (N.compare_spec (N_of_ascii d) (N_of_ascii d'))|..]|..]|..];
    symmetry;
    first [apply N.ltb_lt; lia | apply N.ltb_ge; lia].
Qed.

(** The pair order and the order of the keys agree on the shape NN.NN. *)
Lemma version_le_NN_NN (v w : string) :
  is_NN_NN v = true -> is_NN_NN w = true ->
  (version_key v <= version_key w)%N -> version_le v w.
Proof.
  intros Hv Hw.
  destruct (is_NN_NN_inv v Hv) as [a [b [c [d [-> [Ha [Hb [Hc Hd]]]]]]]].
  destruct (is_NN_NN_inv w Hw) as [a' [b' [c' [d' [-> [Ha' [Hb' [Hc' Hd']]]]]]]].
  unfold version_key, version_le.
  rewrite !version_pair_NN_NN by assumption.
  intros Hle. eexists. eexists. split; [reflexivity|]. split; [reflexivity|].
  unfold pair_le, digit_value in *. cbn [fst snd].
  apply is_digit_bounds in Ha, Hb, Hc, Hd, Ha', Hb', Hc', Hd'.
  lia.
Qed.

Lemma insert_sorted_In {A : Type} (lt : A -> A -> bool) (x y : A)
      (l : list A) :
  In y (insert_sorted lt x l) <-> y = x \/ In y l.
Proof.
  induction l as [|z l IH]; simpl.
  - intuition.
  - destruct (lt z x); simpl; [rewrite IH|]; intuition.
Qed.

Lemma sorted_by_In {A : Type} (lt : A -> A -> bool) (y : A) (l : list A) :
  In y (sorted_by lt l) <-> In y l.
Proof.
  induction l as [|x l IH]; [reflexivity|].
  change (sorted_by lt (x :: l)) with (insert_sorted lt x (sorted_by lt l)).
  rewrite insert_sorted_In, IH. simpl. intuition.
Qed.

Section Sorting.
Context {A : Type}.
Variable lt : A -> A -> bool.
Variable key : A -> N.

Lemma insert_sorted_keeps_order (x : A) (l : list A) :
  (forall y, In y l -> lt y x = (key y <? key x)%N) ->
  StronglySorted (key_le key) l ->
  StronglySorted (key_le key) (insert_sorted lt x l).
Proof.
  intros Hlt Hs. induction Hs as [|z l Hs IH Hz]; simpl.
  - constructor; constructor.
  - rewrite (Hlt z (or_introl eq_refl)).
    destruct (N.ltb_spec (key z) (key x)) as [Hzx|Hxz].
    + constructor.
      * apply IH. intros y Hy. apply Hlt. now right.
      * apply Forall_forall. intros y Hy. apply insert_sorted_In in Hy.
        destruct Hy as [->|Hy].
        -- unfold key_le. lia.
        -- rewrite Forall_forall in Hz. now apply Hz.
    + constructor; [now constructor|].
      constructor; [exact Hxz|].
      rewrite Forall_forall in *. intros y Hy. specialize (Hz y Hy).
      unfold key_le in *. lia.
Qed.

Lemma sorted_by_sorted (l : list A) :
  (forall x y, In x l -> In y l -> lt x y = (key x <? key y)%N) ->
  StronglySorted (key_le key) (sorted_by lt l).
Proof.
  induction l as [|x l IH]; intros Hlt; [constructor|].
  change (sorted_by lt (x :: l)) with (insert_sorted lt x (sorted_by lt l)).
  apply insert_sorted_keeps_order.
  - intros y Hy. apply (proj1 (sorted_by_In lt y l)) in Hy.
    apply Hlt; [now right | now left].
  - apply IH. intros y z Hy Hz. apply Hlt; now right.
Qed.

(** The last element of a sorted list is a greatest one. *)
Lemma last_opt_greatest (l : list A) :
  StronglySorted (key_le key) l ->
  match last_opt l with
  | None => l = []
  | Some m => In m l /\ forall x, In x l -> (key x <= key m)%N
  end.
Proof.
  intros Hs. induction Hs as [|x l Hs IH Hx]; [reflexivity|].
  destruct l as [|y l].
  - simpl. split; [now left|]. intros z [->|[]]. lia.
  - change (last_opt (x :: y :: l)) with (last_opt (y :: l)).
    destruct (last_opt (y :: l)) as [m|]; [|discriminate].
    destruct IH as [Hm Hmax]. split; [now right|].
    intros z [->|Hz]; [|now apply Hmax].
    rewrite Forall_forall in Hx. apply (Hx m Hm).
Qed.
End Sorting.

Lemma match_digits2_inv (s g r : string) :
  match_digits2 s = Some (g, r) ->
  exists a b, g = String a (String b "")
              /\ is_digit a = true /\ is_digit b = true.
Proof.
  destruct s as [|a [|b s]]; simpl; try discriminate.
  destruct (is_digit a) eqn:Ha; [|discriminate].
  destruct (is_digit b) eqn:Hb; [|discriminate].
  simpl. intros H. injection H as <- _. now exists a, b.
Qed.

Lemma match_branch_digits (app name g1 g2 g3 : string) :
  match_branch app name = Some (g1, g2, g3) ->
  is_NN_NN (g2 ++ "." ++ g3) = true.
Proof.
  unfold match_branch.
  destruct (match_literal app name) as [[m1 r1]|]; [|discriminate].
  destruct (match_literal "_" r1) as [[m2 r2]|]; [|discriminate].
  destruct (match_digits2 r2) as [[d1 r3]|] eqn:Hd1; [|discriminate].
  destruct (match_literal "_" r3) as [[m3 r4]|]; [|discriminate].
  destruct (match_digits2 r4) as [[d2 r5]|] eqn:Hd2; [|discriminate].
  destruct (match_literal "_schema.xml" r5) as [[m4 r6]|]; [|discriminate].
  destruct (match_end r6); [|discriminate].
  intros H. injection H as _ <- <-.
  destruct (match_digits2_inv _ _ _ Hd1) as [a [b [-> [Ha Hb]]]].
  destruct (match_digits2_inv _ _ _ Hd2) as [c [d [-> [Hc Hd]]]].
  simpl. now rewrite Ha, Hb, Hc, Hd.
Qed.

Lemma FILENAME_PATTERN_digits (name g1 g2 g3 : string) :
  FILENAME_PATTERN name = Some (g1, g2, g3) ->
  is_NN_NN (g2 ++ "." ++ g3) = true.
Proof.
  unfold FILENAME_PATTERN.
  destruct (match_branch "eppm" name) as [g|] eqn:H.
  - intros Hg. injection Hg as ->. now apply match_branch_digits in H.
  - apply match_branch_digits.
Qed.

Lemma dict_set_values {V : Type} (k : string) (v v' : V) (d : dict V) :
  In v' (dict_values (dict_set k v d)) -> v' = v \/ In v' (dict_values d).
Proof.
  induction d as [|[k0 v0] d IH]; simpl.
  - intros [<-|[]]. now left.
  - destruct (String.eqb k k0); simpl.
    + intros [<-|H]; auto.
    + intros [<-|H]; [auto|]. apply IH in H. tauto.
Qed.

(** Every version that a scan of names below 128 records has the shape
    NN.NN. *)
Lemma scan_versions_NN_NN (schema_dir : string)
      (listing : option (list (string * bool))) (e : SchemaEntry.t) :
  In e (dict_values (SchemaRegistry._scan schema_dir listing)) ->
  is_NN_NN (SchemaEntry.version e) = true.
Proof.
  destruct listing as [l|]; simpl; [|intros []].
  assert (H : forall entries,
             (forall e, In e (dict_values entries) ->
                        is_NN_NN (SchemaEntry.version e) = true) ->
             forall e,
               In e (dict_values
                       (fold_left (SchemaRegistry.scan_entry schema_dir)
                                  l entries)) ->
               is_NN_NN (SchemaEntry.version e) = true).
  { induction l as [|[name is_file] l IH]; intros entries Hentries;
      simpl; [exact Hentries|].
    apply IH. destruct is_file; simpl; [|exact Hentries].
    destruct (FILENAME_PATTERN name) as [[[g1 g2] g3]|] eqn:Hm;
      [|exact Hentries].
    intros e' He'. apply dict_set_values in He'.
    destruct He' as [->|He']; [|now apply Hentries].
    simpl. now apply FILENAME_PATTERN_digits in Hm. }
  apply H. intros e' [].
Qed.

(** [get_latest] sorts the entries of the application by their version
    text and takes the last.  When every version is two digits 0-9, a full
    stop and two digits 0-9, the entry returned is one of the application
    with the greatest pair (major, minor); nothing is returned exactly when
    the application has no entry. *)
Theorem get_latest_greatest_NN_NN (reg : SchemaRegistry.t)
        (application : string) :
  (forall e, In e (dict_values (SchemaRegistry._entries reg)) ->
             is_NN_NN (SchemaEntry.version e) = true) ->
  match SchemaRegistry.get_latest reg application with
  | None =>
      forall e, In e (dict_values (SchemaRegistry._entries reg)) ->
                SchemaEntry.application e <> lower application
  | Some latest =>
      In latest (dict_values (SchemaRegistry._entries reg))
      /\ SchemaEntry.application latest = lower application
      /\ forall e, In e (dict_values (SchemaRegistry._entries reg)) ->
                   SchemaEntry.application e = lower application ->
                   version_le (SchemaEntry.version e)
                              (SchemaEntry.version latest)
  end.
Proof.
  intros Hshape.
  unfold SchemaRegistry.get_latest, SchemaRegistry.list_by_app.
  set (l := filter
              (fun e => String.eqb (SchemaEntry.application e)
                                   (lower application))
              (dict_values (SchemaRegistry._entries reg))).
  set (key := fun e => version_key (SchemaEntry.version e)).
  assert (Hl : forall e, In e l <->
                 In e (dict_values (SchemaRegistry._entries reg))
                 /\ SchemaEntry.application e = lower application).
  { intros e. unfold l. rewrite filter_In, String.eqb_eq. reflexivity. }
  assert (Hlt : forall x y, In x l -> In y l ->
                  SchemaRegistry.version_lt x y = (key x <? key y)%N).
  { intros x y Hx Hy. apply Hl in Hx, Hy.
    apply ltb_NN_NN; apply Hshape; tauto. }
  pose proof (last_opt_greatest key _
                (sorted_by_sorted SchemaRegistry.version_lt key l Hlt))
    as Hlast.
  destruct (last_opt (sorted_by SchemaRegistry.version_lt l)) as [m|].
  - destruct Hlast as [Hm Hmax].
    apply (proj1 (sorted_by_In _ m l)) in Hm.
    apply (proj1 (Hl m)) in Hm. destruct Hm as [Hm Happ].
    split; [assumption|]. split; [assumption|].
    intros e He Heapp.
    apply version_le_NN_NN; try (apply Hshape; assumption).
    apply Hmax. apply (proj2 (sorted_by_In _ e l)).
    apply (proj2 (Hl e)). now split.
  - intros e He Heapp.
    assert (Hin : In e (sorted_by SchemaRegistry.version_lt l))
      by (apply (proj2 (sorted_by_In _ e l)), (proj2 (Hl e)); now split).
    rewrite Hlast in Hin. destruct Hin.
Qed.

Lemma get_latest_greatest_NN_NN_witness :
  match SchemaRegistry.get_latest scanned_registry "EPPM" with
  | None =>
      forall e, In e (dict_values (SchemaRegistry._entries scanned_registry)) ->
                SchemaEntry.application e <> lower "EPPM"
  | Some latest =>
      In latest (dict_values (SchemaRegistry._entries scanned_registry))
      /\ SchemaEntry.application latest = lower "EPPM"
      /\ forall e,
           In e (dict_values (SchemaRegistry._entries scanned_registry)) ->
           SchemaEntry.application e = lower "EPPM" ->
           version_le (SchemaEntry.version e) (SchemaEntry.version latest)
  end.
Proof.
  apply (get_latest_greatest_NN_NN scanned_registry "EPPM").
  intros e He. vm_compute in He.
  destruct He as [<-|[<-|[<-|[<-|[]]]]]; reflexivity.
Defined.

(** Texts are compared, not numbers: of two entries with the versions 9.9
    and 10.1 the one returned is 9.9, the greater text, though 10.1 is not
    below 9.9 as a pair of integers. *)
Lemma get_latest_compares_text :
  SchemaRegistry.get_latest hand_made_registry "eppm" = Some entry_9_9
  /\ In entry_10_1 (dict_values (SchemaRegistry._entries hand_made_registry))
  /\ SchemaEntry.application entry_10_1 = "eppm"
  /\ version_pair (SchemaEntry.version entry_9_9) = Some (9, 9)%N
  /\ version_pair (SchemaEntry.version entry_10_1) = Some (10, 1)%N
  /\ ~ version_le (SchemaEntry.version entry_10_1)
                  (SchemaEntry.version entry_9_9).
Proof.
  split; [reflexivity|].
  split; [vm_compute; right; left; reflexivity|].
  split; [reflexivity|]. split; [reflexivity|]. split; [reflexivity|].
  intros [p [q [Hp [Hq Hle]]]].
  vm_compute in Hp, Hq. injection Hp as <-. injection Hq as <-.
  unfold pair_le in Hle. simpl in Hle. lia.
Qed.


(** ** The parser, loop by loop *)

Lemma add_child_fold (l : list Elem) :
  forall t,
    let t' := fold_left Table.add_child l t in
    Table.name t' = Table.name t
    /\ Table.description t' = Table.description t
    /\ Table.title t' = Table.title t
    /\ Table.tabletype t' = Table.tabletype t
    /\ Table.tablespace t' = Table.tablespace t
    /\ Table.ordinal t' = Table.ordinal t
    /\ Table.fields t'
       = Table.fields t
         ++ map Field.from_xml
                (filter (fun c => String.eqb (tag c) "FIELD") l)
    /\ Table.indexes t'
       = Table.indexes t
         ++ map Index.from_xml
                (filter (fun c => String.eqb (tag c) "INDEX") l)
    /\ Table.constraints t'
       = Table.constraints t
         ++ map Constraint.from_xml
                (filter (fun c => String.eqb (tag c) "CONSTRAINT") l)
    /\ Table.triggers t'
       = Table.triggers t
         ++ map Trigger.from_xml
                (filter (fun c => String.eqb (tag c) "TRIGGER") l).
Proof.
  induction l as [|c l IH]; intros t; cbn zeta.
  - simpl. rewrite !app_nil_r. repeat split.
  - cbn [fold_left filter].
    specialize (IH (Table.add_child t c)). cbn zeta in IH.
    destruct IH as (H1 & H2 & H3 & H4 & H5 & H6 & H7 & H8 & H9 & H10).
    rewrite H1, H2, H3, H4, H5, H6, H7, H8, H9, H10.
    unfold Table.add_child.
    destruct (String.eqb (tag c) "FIELD") eqn:Ef.
    { apply String.eqb_eq in Ef. try rewrite Ef. cbn.
      rewrite <- !app_assoc. repeat split. }
    destruct (String.eqb (tag c) "INDEX") eqn:Ei.
    { apply String.eqb_eq in Ei. try rewrite Ei. cbn.
      rewrite <- !app_assoc. repeat split. }
    destruct (String.eqb (tag c) "CONSTRAINT") eqn:Ec.
    { apply String.eqb_eq in Ec. try rewrite Ec. cbn.
      rewrite <- !app_assoc. repeat split. }
    destruct (String.eqb (tag c) "TRIGGER") eqn:Et.
    { apply String.eqb_eq in Et. try rewrite Et. cbn.
      rewrite <- !app_assoc. repeat split. }
    repeat split.
Qed.

Lemma table_from_xml_name (elem : Elem) :
  Table.name (Table.from_xml elem) = elem_get elem "NAME" "".
Proof.
  unfold Table.from_xml. cbn zeta.
  now destruct (add_child_fold (children elem)
                  (Table.mk (elem_get elem "NAME" "") (elem_get elem "DESC" "")
                     (elem_get elem "TITLE" "")
                     (elem_get elem "TABLETYPE" "NORMAL")
                     (elem_get elem "TABLESPACE" "")
                     (elem_get elem "ORDINAL" "") [] [] [] [])) as [H _].
Qed.

(** X1.  [Table.from_xml] reads the six attributes of the table, with "NORMAL"
    for a missing TABLETYPE, and sorts the children by tag into the four
    collections, each in document order; a child with any other tag is
    left out. *)
Theorem table_from_xml_collections (elem : Elem) :
  let t := Table.from_xml elem in
  let with_tag (name : string) :=
    filter (fun c => String.eqb (tag c) name) (children elem) in
  Table.name t = elem_get elem "NAME" ""
  /\ Table.description t = elem_get elem "DESC" ""
  /\ Table.title t = elem_get elem "TITLE" ""
  /\ Table.tabletype t = elem_get elem "TABLETYPE" "NORMAL"
  /\ Table.tablespace t = elem_get elem "TABLESPACE" ""
  /\ Table.ordinal t = elem_get elem "ORDINAL" ""
  /\ Table.fields t = map Field.from_xml (with_tag "FIELD")
  /\ Table.indexes t = map Index.from_xml (with_tag "INDEX")
  /\ Table.constraints t = map Constraint.from_xml (with_tag "CONSTRAINT")
  /\ Table.triggers t = map Trigger.from_xml (with_tag "TRIGGER").
Proof.
  cbn zeta. unfold Table.from_xml. cbn zeta.
  pose proof (add_child_fold (children elem)
                (Table.mk (elem_get elem "NAME" "") (elem_get elem "DESC" "")
                   (elem_get elem "TITLE" "")
                   (elem_get elem "TABLETYPE" "NORMAL")
                   (elem_get elem "TABLESPACE" "")
                   (elem_get elem "ORDINAL" "") [] [] [] [])) as H.
  cbn zeta in H. exact H.
Qed.

(** Lookup after an assignment. *)
Lemma dict_get_set {V : Type} (k k' : string) (v : V) (d : dict V) :
  dict_get k (dict_set k' v d)
  = if String.eqb k k' then Some v else dict_get k d.
Proof.
  induction d as [|[k0 v0] d IH]; simpl.
  - destruct (String.eqb k k'); reflexivity.
  - destruct (String.eqb k' k0) eqn:E0; simpl.
    + apply String.eqb_eq in E0. subst k0.
      destruct (String.eqb k k'); reflexivity.
    + rewrite IH. destruct (String.eqb k k0) eqn:E1; [|reflexivity].
      apply String.eqb_eq in E1. subst k0.
      rewrite String.eqb_sym, E0. reflexivity.
Qed.

(** An assignment appends a new key and leaves the keys alone
    otherwise. *)
Lemma dict_set_keys_order {V : Type} (k : string) (v : V) (d : dict V) :
  dict_keys (dict_set k v d)
  = if set_mem k (dict_keys d) then dict_keys d else dict_keys d ++ [k].
Proof.
  induction d as [|[k0 v0] d IH]; simpl; [reflexivity|].
  destruct (String.eqb k k0); simpl; [reflexivity|].
  unfold dict_keys in *. rewrite IH.
  now destruct (set_mem k (map fst d)).
Qed.

Lemma add_table_fold (l : list Elem) :
  forall schema,
    let schema' := fold_left Schema.add_table l schema in
    Schema.version schema' = Schema.version schema
    /\ Schema.dbtype schema' = Schema.dbtype schema
    /\ Schema.build_version schema' = Schema.build_version schema
    /\ Schema.min_pro_version schema' = Schema.min_pro_version schema
    /\ Schema.source_path schema' = Schema.source_path schema
    /\ dict_keys (Schema.tables schema')
       = fold_left (fun s x => if set_mem x s then s else s ++ [x])
                   (map (fun e => elem_get e "NAME" "") l)
                   (dict_keys (Schema.tables schema))
    /\ forall k,
         dict_get k (Schema.tables schema')
         = match last_opt
                   (filter (fun t => String.eqb k (Table.name t))
                           (map Table.from_xml l)) with
           | Some t => Some t
           | None => dict_get k (Schema.tables schema)
           end.
Proof.
  induction l as [|e l IH]; intros schema; cbn zeta.
  - simpl. repeat split.
  - cbn [fold_left map].
    specialize (IH (Schema.add_table schema e)). cbn zeta in IH.
    destruct IH as (H1 & H2 & H3 & H4 & H5 & H6 & H7).
    rewrite H1, H2, H3, H4, H5, H6.
    repeat split.
    + cbn [Schema.add_table Schema.tables].
      now rewrite dict_set_keys_order, table_from_xml_name.
    + intros k. rewrite H7. cbn [Schema.add_table Schema.tables filter].
      rewrite dict_get_set.
      destruct (String.eqb k (Table.name (Table.from_xml e))) eqn:Ek.
      * destruct (filter (fun t => String.eqb k (Table.name t))
                         (map Table.from_xml l)) as [|t' r] eqn:Ef.
        -- reflexivity.
        -- change (last_opt (Table.from_xml e :: t' :: r))
             with (last_opt (t' :: r)).
           destruct (last_opt (t' :: r)) eqn:El; [reflexivity|].
           exfalso. clear -El. revert t' El.
           induction r as [|x r IHr]; intros t' El; [discriminate|].
           now apply (IHr x).
      * reflexivity.
Qed.

(** X2.  [Schema.from_xml] reads the four attributes of the root; the keys of
    the table dictionary are the names of the TABLE elements in the order
    of their first appearance, without repetition; and the table under a
    name is the one parsed from the last TABLE element of that name. *)
Theorem schema_from_xml_tables (path : string) (root : Elem) :
  let s := Schema.from_xml path root in
  let table_elems := findall root "TABLE" in
  Schema.version s = elem_get root "VERSION" ""
  /\ Schema.dbtype s = elem_get root "DBTYPE" ""
  /\ Schema.build_version s = elem_get root "BUILD_VERSION_ID" ""
  /\ Schema.min_pro_version s = elem_get root "MIN_PRO_VERSION" ""
  /\ Schema.source_path s = path
  /\ dict_keys (Schema.tables s)
     = set_of_list (map (fun e => elem_get e "NAME" "") table_elems)
  /\ forall k,
       dict_get k (Schema.tables s)
       = last_opt (filter (fun t => String.eqb k (Table.name t))
                          (map Table.from_xml table_elems)).
Proof.
  cbn zeta. unfold Schema.from_xml. cbn zeta.
  pose proof (add_table_fold (findall root "TABLE")
                (Schema.mk (elem_get root "VERSION" "")
                   (elem_get root "DBTYPE" "")
                   (elem_get root "BUILD_VERSION_ID" "")
                   (elem_get root "MIN_PRO_VERSION" "") [] path)) as H.
  cbn zeta in H. destruct H as (H1 & H2 & H3 & H4 & H5 & H6 & H7).
  repeat split; try assumption.
  intros k. rewrite H7. cbn.
  now destruct (last_opt _).
Qed.

(** ** Lookup and search, on names stored in capitals *)

(** X4.  On a parsed schema and for names of text below 128, a table whose
    stored name is in capitals is found by [get_table] under exactly the
    names that equal its name up to case. *)
Theorem get_table_ci_on_capitals (path : string) (root : Elem)
        (name : string) (t : Table.t) :
  is_ascii name = true -> is_ascii (Table.name t) = true ->
  upper (Table.name t) = Table.name t ->
  (Schema.get_table (Schema.from_xml path root) name = Some t <->
   In t (dict_values (Schema.tables (Schema.from_xml path root)))
   /\ ci_eq (Table.name t) name = true).
Proof.
  intros _ _ Hcap.
  destruct (from_xml_tables path root) as [Hnd Hnames].
  unfold Schema.get_table. rewrite (dict_get_In _ _ _ Hnd), ci_eq_upper, Hcap.
  split.
  - intros H. split; [|now apply Hnames].
    unfold dict_values. change t with (snd (upper name, t)). now apply in_map.
  - intros [Hin Hname]. unfold dict_values in Hin. apply in_map_iff in Hin.
    destruct Hin as [[k t'] [Heq Hin]]. simpl in Heq. subst t'.
    rewrite <- Hname, (Hnames k t Hin). exact Hin.
Qed.

Lemma get_table_ci_on_capitals_witness :
  let root :=
    schema_elem [table_elem "ACTIVITY" [field_elem "task_id" "integer"]] in
  let t := Table.from_xml
             (table_elem "ACTIVITY" [field_elem "task_id" "integer"]) in
  Schema.get_table (Schema.from_xml "schema.xml" root) "Activity" = Some t <->
  In t (dict_values (Schema.tables (Schema.from_xml "schema.xml" root)))
  /\ ci_eq (Table.name t) "Activity" = true.
Proof.
  intros root t.
  apply (get_table_ci_on_capitals "schema.xml" root "Activity" t);
    reflexivity.
Defined.

(** X6.  On a parsed schema and for text below 128, a table whose stored name
    is in capitals is returned by [search_tables] exactly when the pattern
    is a case-insensitive substring of its name. *)
Theorem search_tables_ci_on_capitals (path : string) (root : Elem)
        (pattern : string) (t : Table.t) :
  is_ascii pattern = true -> is_ascii (Table.name t) = true ->
  upper (Table.name t) = Table.name t ->
  (In t (Schema.search_tables (Schema.from_xml path root) pattern) <->
   In t (dict_values (Schema.tables (Schema.from_xml path root)))
   /\ ci_substring pattern (Table.name t)).
Proof.
  intros _ _ Hcap.
  destruct (from_xml_tables path root) as [_ Hnames].
  rewrite <- str_in_upper_spec, Hcap.
  unfold Schema.search_tables, dict_items, dict_values.
  rewrite !in_map_iff. split.
  - intros [[k t'] [Heq Hf]]. simpl in Heq. subst t'.
    apply filter_In in Hf. destruct Hf as [Hin Hm]. simpl in Hm.
    rewrite (Hnames k t Hin). split; [|exact Hm].
    exists (k, t). now split.
  - intros [[[k t'] [Heq Hin]] Hm]. simpl in Heq. subst t'.
    exists (k, t). split; [reflexivity|]. apply filter_In.
    split; [exact Hin|]. simpl. now rewrite <- (Hnames k t Hin).
Qed.

Lemma search_tables_ci_on_capitals_witness :
  let root :=
    schema_elem [table_elem "ACTIVITY" [field_elem "task_id" "integer"]] in
  let t := Table.from_xml
             (table_elem "ACTIVITY" [field_elem "task_id" "integer"]) in
  In t (Schema.search_tables (Schema.from_xml "schema.xml" root) "Act") <->
  In t (dict_values (Schema.tables (Schema.from_xml "schema.xml" root)))
  /\ ci_substring "Act" (Table.name t).
Proof.
  intros root t.
  apply (search_tables_ci_on_capitals "schema.xml" root "Act" t);
    reflexivity.
Defined.

(** X7.  For a pattern and a schema of text below 128, [search_fields] goes
    through the tables and their fields in order and keeps the fields whose
    name contains the pattern as a case-insensitive substring, each with the
    name of its table. *)
Theorem search_fields_case_insensitive (s : Schema.t) (pattern : string) :
  is_ascii pattern = true -> ascii_schema s = true ->
  Schema.search_fields s pattern
  = flat_map
      (fun t =>
         map (pair (Table.name t))
             (filter (fun f => str_in (upper pattern) (upper (Field.name f)))
                     (Table.fields t)))
      (dict_values (Schema.tables s))
  /\ forall name f,
       In (name, f) (Schema.search_fields s pattern) <->
       exists t, In t (dict_values (Schema.tables s))
                 /\ name = Table.name t
                 /\ In f (Table.fields t)
                 /\ ci_substring pattern (Field.name f).
Proof.
  intros _ _.
  split; [apply search_fields_comprehension|].
  intros name f. rewrite search_fields_comprehension, in_flat_map. split.
  - intros [t [Ht H]]. apply in_map_iff in H.
    destruct H as [f' [Heq Hf]]. injection Heq as <- ->.
    apply filter_In in Hf. destruct Hf as [Hf Hm].
    exists t. repeat split; try assumption. now apply str_in_upper_spec.
  - intros [t [Ht [-> [Hf Hm]]]]. exists t. split; [assumption|].
    apply in_map, filter_In. split; [assumption|].
    now apply str_in_upper_spec.
Qed.

(** ** Incoming relationships *)

(** X8.  For a schema and a table name of text below 128, a record is in the
    incoming list of the table exactly when it comes from a FOREIGN
    constraint of a table with another name whose target equals the name of
    the table up to case. *)
Theorem incoming_of_spec (s : Schema.t) (t : Table.t) (r : Incoming.t) :
  ascii_schema s = true -> is_ascii (Table.name t) = true ->
  In r (incoming_of s t) <->
  exists other c,
    In other (dict_values (Schema.tables s))
    /\ Table.name other <> Table.name t
    /\ In c (Table.constraints other)
    /\ Constraint.type c = "FOREIGN"
    /\ ci_eq (Constraint.target_table c) (Table.name t) = true
    /\ r = Incoming.of_constraint other c.
Proof.
  intros _ _.
  rewrite incoming_of_comprehension, in_flat_map. split.
  - intros [other [Hother Hr]].
    destruct (String.eqb (Table.name other) (Table.name t)) eqn:Hname;
      [destruct Hr|].
    apply in_map_iff in Hr. destruct Hr as [c [<- Hc]].
    apply filter_In in Hc. destruct Hc as [Hc Href].
    unfold refers_to, is_foreign in Href.
    apply andb_true_iff in Href. destruct Href as [Hf Ht].
    apply String.eqb_eq in Hf, Ht. apply String.eqb_neq in Hname.
    exists other, c. repeat split; try assumption.
    now apply ci_eq_upper.
  - intros [other [c [Hother [Hname [Hc [Hf [Ht ->]]]]]]].
    exists other. split; [assumption|].
    apply String.eqb_neq in Hname. rewrite Hname.
    apply in_map, filter_In. split; [assumption|].
    unfold refers_to, is_foreign. apply andb_true_iff.
    split; apply String.eqb_eq; [assumption | now apply ci_eq_upper].
Qed.

Lemma search_fields_case_insensitive_witness :
  let f := Field.from_xml (field_elem "task_id" "integer") in
  In ("ACTIVITY", f) (Schema.search_fields capitals_schema "TASK") <->
  exists t, In t (dict_values (Schema.tables capitals_schema))
            /\ "ACTIVITY" = Table.name t
            /\ In f (Table.fields t)
            /\ ci_substring "TASK" (Field.name f).
Proof.
  intros f.
  exact (proj2 (search_fields_case_insensitive capitals_schema "TASK"
                  eq_refl eq_refl) "ACTIVITY" f).
Defined.

Lemma incoming_of_spec_witness :
  let t := Table.from_xml
             (table_elem "PROJWBS"
                [foreign_elem "FK_PROJWBS_PARENT" "PARENT_WBS_ID" "PROJWBS"
                              "WBS_ID"]) in
  let r := Incoming.mk "TASK" "FK_TASK_WBS" "WBS_ID" "WBS_ID" in
  In r (incoming_of projwbs_schema t) <->
  exists other c,
    In other (dict_values (Schema.tables projwbs_schema))
    /\ Table.name other <> Table.name t
    /\ In c (Table.constraints other)
    /\ Constraint.type c = "FOREIGN"
    /\ ci_eq (Constraint.target_table c) (Table.name t) = true
    /\ r = Incoming.of_constraint other c.
Proof.
  intros t r.
  apply (incoming_of_spec projwbs_schema t r); reflexivity.
Defined.

(** X5.  On a parsed schema, [search_tables] returns a table exactly when it is
    a table of the schema and its name, as it is stored, is made of some
    text, the pattern in capitals, and some text. *)
Theorem search_tables_on_parsed (path : string) (root : Elem)
        (pattern : string) (t : Table.t) :
  In t (Schema.search_tables (Schema.from_xml path root) pattern) <->
  In t (dict_values (Schema.tables (Schema.from_xml path root)))
  /\ exists pre post,
       Table.name t = (pre ++ upper pattern ++ post)%string.
Proof.
  destruct (from_xml_tables path root) as [_ Hnames].
  rewrite <- str_in_spec.
  unfold Schema.search_tables, dict_items, dict_values.
  rewrite !in_map_iff. split.
  - intros [[k t'] [Heq Hf]]. simpl in Heq. subst t'.
    apply filter_In in Hf. destruct Hf as [Hin Hm]. simpl in Hm.
    rewrite (Hnames k t Hin). split; [|exact Hm].
    exists (k, t). now split.
  - intros [[[k t'] [Heq Hin]] Hm]. simpl in Heq. subst t'.
    exists (k, t). split; [reflexivity|]. apply filter_In.
    split; [exact Hin|]. simpl. now rewrite <- (Hnames k t Hin).
Qed.

(** ** Constraints and statistics *)

Lemma get_constraints_comprehension (s : Schema.t) (constraint_type : string) :
  get_constraints s constraint_type
  = flat_map
      (fun t =>
         map (ConstraintRow.of_constraint t)
             (filter (passes_filter (filter_type_of constraint_type))
                     (Table.constraints t)))
      (dict_values (Schema.tables s)).
Proof.
  unfold get_constraints.
  apply (loop_nested
           (fun table result =>
              fold_left
                (fun result c =>
                   if passes_filter (filter_type_of constraint_type) c
                   then result ++ [ConstraintRow.of_constraint table c]
                   else result)
                (Table.constraints table) result)
           (fun t =>
              map (ConstraintRow.of_constraint t)
                  (filter (passes_filter (filter_type_of constraint_type))
                          (Table.constraints t)))).
  intros t acc. apply loop_append_filter.
Qed.

(** X9.  [get_constraints] with "fk" lists the FOREIGN constraints and with "pk"
    the PRIMARY ones, each with the name of its table; with any other word,
    "FK" in capitals included, it lists every constraint. *)
Theorem get_constraints_by_type (s : Schema.t) :
  get_constraints s "fk"
  = map (fun tc => ConstraintRow.of_constraint (fst tc) (snd tc))
        (foreign_keys s)
  /\ (forall row,
         In row (get_constraints s "pk") <->
         exists t c, In t (dict_values (Schema.tables s))
                     /\ In c (Table.constraints t)
                     /\ Constraint.type c = "PRIMARY"
                     /\ row = ConstraintRow.of_constraint t c)
  /\ (forall constraint_type,
         constraint_type <> "fk" -> constraint_type <> "pk" ->
         get_constraints s constraint_type
         = flat_map
             (fun t => map (ConstraintRow.of_constraint t)
                           (Table.constraints t))
             (dict_values (Schema.tables s))).
Proof.
  split; [|split].
  - rewrite get_constraints_comprehension. unfold foreign_keys.
    rewrite map_flat_map. apply flat_map_ext. intros t.
    now rewrite map_map.
  - intros row. rewrite get_constraints_comprehension, in_flat_map. split.
    + intros [t [Ht H]]. apply in_map_iff in H. destruct H as [c [<- Hc]].
      apply filter_In in Hc. destruct Hc as [Hc Hp].
      apply String.eqb_eq in Hp. now exists t, c.
    + intros [t [c [Ht [Hc [Hp ->]]]]]. exists t. split; [assumption|].
      apply in_map, filter_In. split; [assumption|].
      now apply String.eqb_eq.
  - intros ct Hfk Hpk. rewrite get_constraints_comprehension.
    unfold filter_type_of.
    apply String.eqb_neq in Hfk, Hpk. rewrite Hfk, Hpk.
    apply flat_map_ext. intros t. now rewrite filter_all.
Qed.

Lemma fold_left_add_shift (l : list nat) (a : nat) :
  fold_left Nat.add l a = a + fold_left Nat.add l 0.
Proof.
  revert a. induction l as [|x l IH]; intros a; simpl; [lia|].
  rewrite (IH (a + x)), (IH x). lia.
Qed.

Lemma py_sum_cons (x : nat) (l : list nat) : py_sum (x :: l) = x + py_sum l.
Proof. unfold py_sum. simpl. apply fold_left_add_shift. Qed.

Lemma py_sum_app (l l' : list nat) : py_sum (l ++ l') = py_sum l + py_sum l'.
Proof.
  induction l as [|x l IH]; [reflexivity|].
  simpl app. rewrite !py_sum_cons, IH. lia.
Qed.

(** The sum of the lengths is the length of the whole. *)
Lemma py_sum_lengths {A B : Type} (f : A -> list B) (l : list A) :
  py_sum (map (fun x => List.length (f x)) l) = List.length (flat_map f l).
Proof.
  induction l as [|x l IH]; [reflexivity|].
  simpl map. rewrite py_sum_cons, IH. simpl. now rewrite length_app.
Qed.

Lemma py_sum_ones {A : Type} (l : list A) :
  py_sum (map (fun _ => 1) l) = List.length l.
Proof.
  induction l as [|x l IH]; [reflexivity|].
  simpl map. rewrite py_sum_cons, IH. reflexivity.
Qed.

Lemma length_flat_map_ext {A B C : Type} (f : A -> list B) (g : A -> list C)
      (l : list A) :
  (forall x, List.length (f x) = List.length (g x)) ->
  List.length (flat_map f l) = List.length (flat_map g l).
Proof.
  intros H. induction l as [|x l IH]; [reflexivity|].
  simpl. now rewrite !length_app, H, IH.
Qed.

(** X10.  The totals of [get_stats] count the fields, indexes and constraints of
    all tables; the number of foreign keys is the number of rows that
    [get_constraints] lists for "fk" and that [search_relationships]
    returns for the empty pattern, the number of constraints is the number
    of rows for "all", and the number of fields is the number of pairs that
    [search_fields] returns for the empty pattern. *)
Theorem get_stats_totals (s : Schema.t) :
  let st := get_stats s in
  stat_tables st = List.length (dict_values (Schema.tables s))
  /\ stat_fields st
     = List.length (flat_map Table.fields (dict_values (Schema.tables s)))
  /\ stat_indexes st
     = List.length (flat_map Table.indexes (dict_values (Schema.tables s)))
  /\ stat_constraints st = List.length (all_constraints s)
  /\ stat_foreign_keys st = List.length (foreign_keys s)
  /\ stat_foreign_keys st = List.length (get_constraints s "fk")
  /\ stat_foreign_keys st = List.length (Schema.search_relationships s "")
  /\ stat_constraints st = List.length (get_constraints s "all")
  /\ stat_fields st = List.length (Schema.search_fields s "").
Proof.
  cbn zeta.
  assert (Hfk : stat_foreign_keys (get_stats s) = List.length (foreign_keys s)).
  { unfold get_stats, foreign_keys. cbn [stat_foreign_keys].
    induction (dict_values (Schema.tables s)) as [|t l IH]; [reflexivity|].
    cbn [flat_map]. rewrite py_sum_app, IH, py_sum_ones, length_app.
    now rewrite length_map. }
  assert (Hc : stat_constraints (get_stats s) = List.length (all_constraints s))
    by apply py_sum_lengths.
  assert (Hf : stat_fields (get_stats s)
               = List.length
                   (flat_map Table.fields (dict_values (Schema.tables s))))
    by apply py_sum_lengths.
  repeat split.
  - unfold get_stats, dict_values. cbn. now rewrite length_map.
  - exact Hf.
  - apply py_sum_lengths.
  - exact Hc.
  - exact Hfk.
  - rewrite Hfk, get_constraints_comprehension. unfold foreign_keys.
    apply length_flat_map_ext. intros t. now rewrite !length_map.
  - rewrite Hfk, search_relationships_comprehension, length_map.
    rewrite filter_all; [reflexivity|]. intros x _.
    unfold Schema.relationship_matches. simpl. now rewrite str_in_empty.
  - rewrite Hc, get_constraints_comprehension. unfold all_constraints.
    apply length_flat_map_ext. intros t. rewrite length_map.
    rewrite filter_all; [reflexivity|]. now intros x _.
  - rewrite Hf, search_fields_comprehension.
    apply length_flat_map_ext. intros t. rewrite length_map.
    rewrite filter_all; [reflexivity|]. intros x _. apply str_in_empty.
Qed.

(** ** The histogram of datatypes *)

Lemma fold_left_flat_map {A B C : Type} (f : A -> B -> A) (g : C -> list B)
      (l : list C) :
  forall a,
    fold_left (fun a x => fold_left f (g x) a) l a
    = fold_left f (flat_map g l) a.
Proof.
  induction l as [|x l IH]; intros a; simpl; [reflexivity|].
  now rewrite fold_left_app, IH.
Qed.

Lemma count_datatype_get (d : string) (f : Field.t) (h : dict nat) :
  dict_get d (count_datatype h f)
  = if String.eqb d (Field.datatype f)
    then Some (match dict_get d h with Some n => n | None => 0 end + 1)
    else dict_get d h.
Proof.
  unfold count_datatype. rewrite dict_get_set.
  destruct (String.eqb d (Field.datatype f)) eqn:E; [|reflexivity].
  apply String.eqb_eq in E. now subst d.
Qed.

Lemma histogram_get (d : string) (l : list Field.t) :
  forall h,
    dict_get d (fold_left count_datatype l h)
    = match dict_get d h with
      | Some m => Some (m + count_with_datatype d l)
      | None =>
          if Nat.eqb (count_with_datatype d l) 0 then None
          else Some (count_with_datatype d l)
      end.
Proof.
  unfold count_with_datatype.
  induction l as [|f l IH]; intros h; simpl.
  - destruct (dict_get d h); [f_equal; lia | reflexivity].
  - rewrite IH, count_datatype_get.
    destruct (String.eqb d (Field.datatype f)); simpl.
    + destruct (dict_get d h); f_equal; lia.
    + reflexivity.
Qed.

Lemma count_datatype_sum (h : dict nat) (f : Field.t) :
  py_sum (dict_values (count_datatype h f)) = py_sum (dict_values h) + 1.
Proof.
  unfold count_datatype. generalize (Field.datatype f) as k. intros k.
  induction h as [|[k0 v0] h IH]; [reflexivity|].
  simpl dict_get. simpl dict_set.
  destruct (String.eqb k k0).
  - unfold dict_values. simpl map. rewrite !py_sum_cons. lia.
  - unfold dict_values in *. simpl map. rewrite !py_sum_cons, IH. lia.
Qed.

Lemma histogram_sum (l : list Field.t) :
  forall h,
    py_sum (dict_values (fold_left count_datatype l h))
    = py_sum (dict_values h) + List.length l.
Proof.
  induction l as [|f l IH]; intros h; simpl; [lia|].
  rewrite IH, count_datatype_sum. lia.
Qed.

Lemma histogram_keys (l : list Field.t) :
  forall h,
    NoDup (dict_keys h) -> NoDup (dict_keys (fold_left count_datatype l h)).
Proof.
  induction l as [|f l IH]; intros h Hh; simpl; [assumption|].
  apply IH. unfold count_datatype. now apply dict_set_keys.
Qed.

(** X11.  The histogram of [get_stats] has each datatype once, gives for a
    datatype the number of fields that have it and nothing for a datatype
    that no field has, and its counts add up to the number of fields. *)
Theorem get_stats_datatypes (s : Schema.t) :
  let h := stat_datatypes (get_stats s) in
  NoDup (dict_keys h)
  /\ (forall d,
         dict_get d h
         = if Nat.eqb (count_with_datatype d (all_fields s)) 0 then None
           else Some (count_with_datatype d (all_fields s)))
  /\ py_sum (dict_values h) = stat_fields (get_stats s).
Proof.
  cbn zeta. unfold get_stats. cbn [stat_datatypes stat_fields].
  rewrite fold_left_flat_map. fold (all_fields s).
  split; [|split].
  - apply histogram_keys. constructor.
  - intros d. now rewrite histogram_get.
  - rewrite histogram_sum, py_sum_lengths. reflexivity.
Qed.

(** ** Sorted results *)

Lemma string_compare_lt_trans (a b c : string) :
  String.compare a b = Lt -> String.compare b c = Lt ->
  String.compare a c = Lt.
Proof.
  revert b c. induction a as [|x a IH]; intros [|y b] [|z c]; simpl;
    try discriminate; try reflexivity.
  unfold Ascii.compare.
  destruct (N.compare_spec (N_of_ascii x) (N_of_ascii y)) as [Exy|Lxy|Gxy];
    try discriminate;
    destruct (N.compare_spec (N_of_ascii y) (N_of_ascii z)) as [Eyz|Lyz|Gyz];
    try discriminate; intros H1 H2.
  - rewrite Exy, Eyz, N.compare_refl. now apply (IH b c).
  - rewrite Exy. now apply N.compare_lt_iff in Lyz as ->.
  - rewrite <- Eyz. now apply N.compare_lt_iff in Lxy as ->.
  - assert (L : (N_of_ascii x < N_of_ascii z)%N) by lia.
    now apply N.compare_lt_iff in L as ->.
Qed.

Lemma string_leb_ltb (a b : string) :
  String.leb a b = true <-> String.ltb b a = false.
Proof.
  unfold String.leb, String.ltb. rewrite (String.compare_antisym b a).
  destruct (String.compare a b); simpl; split; intros H;
    first [reflexivity | discriminate H].
Qed.

Lemma string_ltb_asym (a b : string) :
  String.ltb a b = true -> String.ltb b a = false.
Proof.
  unfold String.ltb. rewrite (String.compare_antisym b a).
  destruct (String.compare a b); simpl; intros H;
    first [reflexivity | discriminate H].
Qed.

Lemma string_leb_trans (a b c : string) :
  String.leb a b = true -> String.leb b c = true -> String.leb a c = true.
Proof.
  unfold String.leb.
  destruct (String.compare a b) eqn:Eab; try discriminate;
    destruct (String.compare b c) eqn:Ebc; try discriminate; intros _ _.
  - apply String.compare_eq_iff in Eab. subst. now rewrite Ebc.
  - apply String.compare_eq_iff in Eab. subst. now rewrite Ebc.
  - apply String.compare_eq_iff in Ebc. subst. now rewrite Eab.
  - now rewrite (string_compare_lt_trans a b c Eab Ebc).
Qed.

Lemma sorted_by_perm {A : Type} (lt : A -> A -> bool) (l : list A) :
  Permutation (sorted_by lt l) l.
Proof.
  assert (Hins : forall x l', Permutation (insert_sorted lt x l') (x :: l')).
  { intros x l'. induction l' as [|y l' IH]; simpl; [reflexivity|].
    destruct (lt y x); [|reflexivity].
    rewrite IH. apply perm_swap. }
  induction l as [|x l IH]; [reflexivity|].
  change (sorted_by lt (x :: l)) with (insert_sorted lt x (sorted_by lt l)).
  now rewrite Hins, IH.
Qed.

(** Sorting by a text key gives a list in ascending order of the key. *)
Lemma sorted_by_ascending {A : Type} (key : A -> string) (l : list A) :
  ascending key (sorted_by (fun a b => String.ltb (key a) (key b)) l).
Proof.
  set (lt := fun a b => String.ltb (key a) (key b)).
  assert (Hins : forall x l', ascending key l' ->
                              ascending key (insert_sorted lt x l')).
  { intros x l' Hs. induction Hs as [|y l' Hs IH Hy]; simpl.
    - constructor; constructor.
    - unfold lt at 1. destruct (String.ltb (key y) (key x)) eqn:E.
      + constructor; [exact IH|].
        apply Forall_forall. intros z Hz. apply insert_sorted_In in Hz.
        destruct Hz as [->|Hz].
        * apply string_leb_ltb. now apply string_ltb_asym.
        * rewrite Forall_forall in Hy. now apply Hy.
      + apply string_leb_ltb in E.
        constructor; [now constructor|].
        constructor; [exact E|].
        rewrite Forall_forall in *. intros z Hz.
        apply (string_leb_trans _ (key y)); [exact E | now apply Hy]. }
  induction l as [|x l IH]; [constructor|].
  change (sorted_by lt (x :: l)) with (insert_sorted lt x (sorted_by lt l)).
  now apply Hins.
Qed.

Lemma ascending_map {A B : Type} (f : A -> B) (key : B -> string)
      (l : list A) :
  ascending (fun x => key (f x)) l -> ascending key (map f l).
Proof.
  unfold ascending. induction 1 as [|x l Hs IH Hx]; simpl; constructor.
  - exact IH.
  - rewrite Forall_forall in *. intros y Hy. apply in_map_iff in Hy.
    destruct Hy as [z [<- Hz]]. now apply Hx.
Qed.

(** X12.  [list_tables] gives one summary for each table of the schema, with the
    number of its fields, in ascending order of the table names. *)
Theorem list_tables_sorted (s : Schema.t) :
  Permutation (list_tables s)
              (map TableSummary.of_table (dict_values (Schema.tables s)))
  /\ ascending TableSummary.name (list_tables s).
Proof.
  unfold list_tables. split.
  - apply Permutation_map, sorted_by_perm.
  - apply ascending_map. apply (sorted_by_ascending Table.name).
Qed.

(** X13.  [list_by_app] returns the entries whose application is the argument in
    small letters, each once, in ascending order of the version text. *)
Theorem list_by_app_sorted (reg : SchemaRegistry.t) (application : string) :
  Permutation
    (SchemaRegistry.list_by_app reg application)
    (filter (fun e => String.eqb (SchemaEntry.application e)
                                 (lower application))
            (dict_values (SchemaRegistry._entries reg)))
  /\ ascending SchemaEntry.version
               (SchemaRegistry.list_by_app reg application).
Proof.
  unfold SchemaRegistry.list_by_app. split.
  - apply sorted_by_perm.
  - apply (sorted_by_ascending SchemaEntry.version).
Qed.

(** X14.  [available_keys] returns the keys of the registry, each once, in
    ascending order. *)
Theorem available_keys_sorted (reg : SchemaRegistry.t) :
  Permutation (available_keys reg)
              (dict_keys (SchemaRegistry._entries reg))
  /\ ascending (fun k => k) (available_keys reg).
Proof.
  unfold available_keys. split.
  - apply sorted_by_perm.
  - apply (sorted_by_ascending (fun k : string => k)).
Qed.

(** ** Comparing two schemas *)

Lemma set_of_list_In_iff (l : list string) (x : string) :
  In x (set_of_list l) <-> In x l.
Proof.
  split; [apply set_of_list_In|].
  unfold set_of_list.
  assert (H : forall l acc,
             In x acc \/ In x l ->
             In x (fold_left
                     (fun s y => if set_mem y s then s else s ++ [y]) l acc)).
  { clear l. induction l as [|y l IH]; intros acc Hx; simpl.
    - destruct Hx as [Hx|[]]. exact Hx.
    - apply IH. destruct (set_mem y acc) eqn:Hm.
      + destruct Hx as [Hx|[->|Hx]]; auto.
        left. now apply set_mem_In.
      + destruct Hx as [Hx|[->|Hx]]; auto.
        * left. apply in_or_app. now left.
        * left. apply in_or_app. right. now left. }
  intros Hx. apply H. now right.
Qed.

Lemma set_diff_In (a b : list string) (x : string) :
  In x (set_diff a b) <-> In x a /\ ~ In x b.
Proof.
  unfold set_diff. rewrite filter_In, negb_true_iff. split.
  - intros [Ha Hb]. split; [exact Ha|]. intros Hin.
    apply set_mem_In in Hin. congruence.
  - intros [Ha Hb]. split; [exact Ha|].
    destruct (set_mem x b) eqn:E; [|reflexivity].
    exfalso. now apply Hb, set_mem_In.
Qed.

Lemma set_inter_In (a b : list string) (x : string) :
  In x (set_inter a b) <-> In x a /\ In x b.
Proof. unfold set_inter. now rewrite filter_In, set_mem_In. Qed.

Lemma set_eqb_spec (a b : list string) :
  set_eqb a b = true <-> forall x, In x a <-> In x b.
Proof.
  unfold set_eqb. rewrite andb_true_iff, !forallb_forall. split.
  - intros [Hab Hba] x. split; intros H.
    + now apply set_mem_In, Hab.
    + now apply set_mem_In, Hba.
  - intros H. split; intros x Hx; apply set_mem_In, H, Hx.
Qed.

Lemma compare_table_fold (s1 s2 : Schema.t) (common : list string) :
  (forall name, In name common ->
                In name (dict_keys (Schema.tables s1))
                /\ In name (dict_keys (Schema.tables s2))) ->
  forall modified,
    fold_left (compare_table s1 s2) common (Some modified)
    = Some (modified ++ flat_map (modified_entry s1 s2) common).
Proof.
  induction common as [|name common IH]; intros Hkeys modified; simpl.
  - now rewrite app_nil_r.
  - destruct (Hkeys name (or_introl eq_refl)) as [H1 H2].
    destruct (dict_get_key _ name H1) as [t1 Ht1].
    destruct (dict_get_key _ name H2) as [t2 Ht2].
    unfold modified_entry. rewrite Ht1, Ht2.
    assert (Hrest : forall n, In n common ->
                      In n (dict_keys (Schema.tables s1))
                      /\ In n (dict_keys (Schema.tables s2)))
      by (intros n Hn; apply Hkeys; now right).
    destruct (negb (set_eqb (field_names t1) (field_names t2))).
    + rewrite (IH Hrest). now rewrite <- app_assoc.
    + rewrite (IH Hrest). reflexivity.
Qed.

Lemma dict_get_some_key {V : Type} (d : dict V) (k : string) (v : V) :
  dict_get k d = Some v -> In k (dict_keys d).
Proof.
  induction d as [|[k0 v0] d IH]; simpl; [discriminate|].
  destruct (String.eqb k k0) eqn:E.
  - apply String.eqb_eq in E. now left.
  - intros H. right. now apply IH.
Qed.

Lemma field_names_In (t : Table.t) (f : string) :
  In f (field_names t) <-> In f (map Field.name (Table.fields t)).
Proof. apply set_of_list_In_iff. Qed.

Lemma modified_entry_In (s1 s2 : Schema.t) (name : string)
      (m : modified_table) :
  In m (modified_entry s1 s2 name) ->
  mod_table m = name
  /\ exists t1 t2,
       dict_get name (Schema.tables s1) = Some t1
       /\ dict_get name (Schema.tables s2) = Some t2
       /\ set_eqb (field_names t1) (field_names t2) = false
       /\ added_fields m
          = sorted_by String.ltb (set_diff (field_names t2) (field_names t1))
       /\ removed_fields m
          = sorted_by String.ltb (set_diff (field_names t1) (field_names t2)).
Proof.
  unfold modified_entry.
  destruct (dict_get name (Schema.tables s1)) as [t1|]; [|intros []].
  destruct (dict_get name (Schema.tables s2)) as [t2|]; [|intros []].
  destruct (set_eqb (field_names t1) (field_names t2)) eqn:E; simpl;
    [intros []|].
  intros [<-|[]]. split; [reflexivity|]. exists t1, t2.
  repeat split; assumption.
Qed.

(** X16.  [compare_schemas] always returns a result.  In it the added tables are
    the names of the second schema that the first lacks and the removed
    tables the names of the first that the second lacks, both in ascending
    order, and they change places when the schemas do.  A table of both
    schemas is listed as modified exactly when the two sets of field names
    differ, whatever else differs, and its record then lists the field names
    only the second table has and those only the first has. *)
Theorem compare_schemas_spec (s1 s2 : Schema.t) :
  exists r r',
    compare_schemas s1 s2 = Some r
    /\ compare_schemas s2 s1 = Some r'
    /\ (forall n, In n (added_tables r) <->
                  In n (dict_keys (Schema.tables s2))
                  /\ ~ In n (dict_keys (Schema.tables s1)))
    /\ (forall n, In n (removed_tables r) <->
                  In n (dict_keys (Schema.tables s1))
                  /\ ~ In n (dict_keys (Schema.tables s2)))
    /\ ascending (fun n => n) (added_tables r)
    /\ ascending (fun n => n) (removed_tables r)
    /\ added_tables r' = removed_tables r
    /\ removed_tables r' = added_tables r
    /\ forall name t1 t2,
         dict_get name (Schema.tables s1) = Some t1 ->
         dict_get name (Schema.tables s2) = Some t2 ->
         ((exists m, In m (modified_tables r) /\ mod_table m = name) <->
          ~ (forall f, In f (map Field.name (Table.fields t1)) <->
                       In f (map Field.name (Table.fields t2))))
         /\ forall m,
              In m (modified_tables r) -> mod_table m = name ->
              (forall f, In f (added_fields m) <->
                         In f (map Field.name (Table.fields t2))
                         /\ ~ In f (map Field.name (Table.fields t1)))
              /\ (forall f, In f (removed_fields m) <->
                            In f (map Field.name (Table.fields t1))
                            /\ ~ In f (map Field.name (Table.fields t2))).
Proof.
  unfold compare_schemas.
  set (tables1 := set_of_list (dict_keys (Schema.tables s1))).
  set (tables2 := set_of_list (dict_keys (Schema.tables s2))).
  assert (Hcommon : forall a b : Schema.t,
             forall name,
               In name (set_inter (set_of_list (dict_keys (Schema.tables a)))
                                  (set_of_list (dict_keys (Schema.tables b)))) ->
               In name (dict_keys (Schema.tables a))
               /\ In name (dict_keys (Schema.tables b))).
  { intros a b name H. apply set_inter_In in H.
    now rewrite !set_of_list_In_iff in H. }
  rewrite (compare_table_fold s1 s2 _ (Hcommon s1 s2)).
  rewrite (compare_table_fold s2 s1 _ (Hcommon s2 s1)).
  eexists. eexists. split; [reflexivity|]. split; [reflexivity|].
  cbn [added_tables removed_tables modified_tables app].
  split; [|split; [|split; [|split; [|split; [|split]]]]].
  - intros n. unfold tables1, tables2.
    now rewrite sorted_by_In, set_diff_In, !set_of_list_In_iff.
  - intros n. unfold tables1, tables2.
    now rewrite sorted_by_In, set_diff_In, !set_of_list_In_iff.
  - apply (sorted_by_ascending (fun n : string => n)).
  - apply (sorted_by_ascending (fun n : string => n)).
  - reflexivity.
  - reflexivity.
  - intros name t1 t2 Ht1 Ht2. split.
    + split.
      * intros [m [Hm Hname]]. apply in_flat_map in Hm.
        destruct Hm as [n [_ Hm]]. apply modified_entry_In in Hm.
        destruct Hm as [Hn [u1 [u2 [Hu1 [Hu2 [Hneq _]]]]]].
        rewrite Hname in Hn. subst n. rewrite Ht1 in Hu1. rewrite Ht2 in Hu2.
        injection Hu1 as <-. injection Hu2 as <-.
        intros Hsame.
        assert (Heq : set_eqb (field_names t1) (field_names t2) = true).
        { apply set_eqb_spec. intros f. rewrite !field_names_In. apply Hsame. }
        congruence.
      * intros Hdiff.
        assert (Hneq : set_eqb (field_names t1) (field_names t2) = false).
        { destruct (set_eqb (field_names t1) (field_names t2)) eqn:E;
            [|reflexivity].
          exfalso. apply Hdiff. intros f. rewrite <- !field_names_In.
          revert f. now apply set_eqb_spec. }
        exists {| mod_table := name;
                  added_fields :=
                    sorted_by String.ltb
                      (set_diff (field_names t2) (field_names t1));
                  removed_fields :=
                    sorted_by String.ltb
                      (set_diff (field_names t1) (field_names t2)) |}.
        split; [|reflexivity].
        apply in_flat_map. exists name. split.
        -- apply set_inter_In. unfold tables1, tables2.
           rewrite !set_of_list_In_iff.
           split; eapply dict_get_some_key; eassumption.
        -- unfold modified_entry. rewrite Ht1, Ht2, Hneq. simpl.
           left. reflexivity.
    + intros m Hm Hname. apply in_flat_map in Hm.
      destruct Hm as [n [_ Hm]]. apply modified_entry_In in Hm.
      destruct Hm as [Hn [u1 [u2 [Hu1 [Hu2 [_ [Hadd Hrem]]]]]]].
      rewrite Hname in Hn. subst n. rewrite Ht1 in Hu1. rewrite Ht2 in Hu2.
      injection Hu1 as <-. injection Hu2 as <-.
      rewrite Hadd, Hrem. split; intros f.
      * now rewrite sorted_by_In, set_diff_In, !field_names_In.
      * now rewrite sorted_by_In, set_diff_In, !field_names_In.
Qed.

(** ** The file name pattern *)

Lemma match_literal_sound (lit : string) :
  forall s m r,
    match_literal lit s = Some (m, r) ->
    s = (m ++ r)%string /\ lower m = lower lit.
Proof.
  induction lit as [|a lit IH]; intros s m r; simpl.
  - intros H. injection H as <- <-. now split.
  - destruct s as [|b s]; [discriminate|].
    destruct (Ascii.eqb (lower_ascii a) (lower_ascii b)) eqn:E; [|discriminate].
    destruct (match_literal lit s) as [[m' r']|] eqn:Hm; [|discriminate].
    intros H. injection H as <- <-.
    destruct (IH _ _ _ Hm) as [-> Hl]. apply Ascii.eqb_eq in E.
    simpl. now rewrite Hl, E.
Qed.

Lemma match_literal_complete (lit : string) :
  forall m r,
    lower m = lower lit -> match_literal lit (m ++ r) = Some (m, r).
Proof.
  induction lit as [|a lit IH]; intros [|b m] r; simpl; try discriminate.
  - reflexivity.
  - intros H. injection H as Hc Hm.
    rewrite Hc, Ascii.eqb_refl, (IH m r Hm). reflexivity.
Qed.

Lemma match_digits2_sound (s g r : string) :
  match_digits2 s = Some (g, r) ->
  s = (g ++ r)%string /\ is_two_digits g = true.
Proof.
  destruct s as [|a [|b s]]; simpl; try discriminate.
  destruct (is_digit a && is_digit b) eqn:E; [|discriminate].
  intros H. injection H as <- <-. simpl. now split.
Qed.

Lemma match_digits2_complete (g r : string) :
  is_two_digits g = true -> match_digits2 (g ++ r) = Some (g, r).
Proof.
  destruct g as [|a [|b [|c g]]]; simpl; try discriminate.
  now intros ->.
Qed.

Lemma match_end_spec (s : string) :
  match_end s = true <-> s = "" \/ s = newline.
Proof.
  unfold match_end. now rewrite orb_true_iff, !String.eqb_eq.
Qed.

Lemma lower_underscore (m : string) : lower m = "_" -> m = "_".
Proof.
  destruct m as [|c [|d m]]; simpl; try discriminate.
  intros H. injection H as H. f_equal.
  assert (Hall : forallb (fun c => implb (Ascii.eqb (lower_ascii c) "_"%char)
                                         (Ascii.eqb c "_"%char))
                         all_ascii = true) by (vm_compute; reflexivity).
  rewrite forallb_forall in Hall. specialize (Hall c (all_ascii_complete c)).
  rewrite H, Ascii.eqb_refl in Hall. simpl in Hall.
  now apply Ascii.eqb_eq.
Qed.

Lemma match_branch_sound (app name g1 g2 g3 : string) :
  match_branch app name = Some (g1, g2, g3) ->
  lower g1 = lower app
  /\ is_two_digits g2 = true /\ is_two_digits g3 = true
  /\ exists suffix nl,
       lower suffix = "_schema.xml"
       /\ (nl = "" \/ nl = newline)
       /\ name = (g1 ++ "_" ++ g2 ++ "_" ++ g3 ++ suffix ++ nl)%string.
Proof.
  unfold match_branch.
  destruct (match_literal app name) as [[m1 r1]|] eqn:H1; [|discriminate].
  destruct (match_literal "_" r1) as [[m2 r2]|] eqn:H2; [|discriminate].
  destruct (match_digits2 r2) as [[d1 r3]|] eqn:H3; [|discriminate].
  destruct (match_literal "_" r3) as [[m3 r4]|] eqn:H4; [|discriminate].
  destruct (match_digits2 r4) as [[d2 r5]|] eqn:H5; [|discriminate].
  destruct (match_literal "_schema.xml" r5) as [[m4 r6]|] eqn:H6;
    [|discriminate].
  destruct (match_end r6) eqn:H7; [|discriminate].
  intros H. injection H as <- <- <-.
  apply match_literal_sound in H1, H2, H4, H6.
  apply match_digits2_sound in H3, H5. apply match_end_spec in H7.
  destruct H1 as [-> Hg1]. destruct H2 as [-> Hm2]. destruct H3 as [-> Hd1].
  destruct H4 as [-> Hm3]. destruct H5 as [-> Hd2]. destruct H6 as [-> Hm4].
  apply lower_underscore in Hm2, Hm3. subst m2 m3.
  repeat split; try assumption.
  exists m4, r6. repeat split; assumption.
Qed.

Lemma match_branch_complete (app g1 g2 g3 suffix nl : string) :
  lower g1 = lower app ->
  is_two_digits g2 = true -> is_two_digits g3 = true ->
  lower suffix = "_schema.xml" -> nl = "" \/ nl = newline ->
  match_branch app (g1 ++ "_" ++ g2 ++ "_" ++ g3 ++ suffix ++ nl)
  = Some (g1, g2, g3).
Proof.
  intros Hg1 Hg2 Hg3 Hs Hnl. unfold match_branch.
  rewrite (match_literal_complete app g1 _ Hg1).
  rewrite (match_literal_complete "_" "_" _ eq_refl).
  rewrite (match_digits2_complete g2 _ Hg2).
  rewrite (match_literal_complete "_" "_" _ eq_refl).
  rewrite (match_digits2_complete g3 _ Hg3).
  rewrite (match_literal_complete "_schema.xml" suffix nl Hs).
  now rewrite (proj2 (match_end_spec nl) Hnl).
Qed.

Lemma FILENAME_PATTERN_sound (name g1 g2 g3 : string) :
  FILENAME_PATTERN name = Some (g1, g2, g3) ->
  (lower g1 = "eppm" \/ lower g1 = "ppm")
  /\ is_two_digits g2 = true /\ is_two_digits g3 = true
  /\ exists suffix nl,
       lower suffix = "_schema.xml"
       /\ (nl = "" \/ nl = newline)
       /\ name = (g1 ++ "_" ++ g2 ++ "_" ++ g3 ++ suffix ++ nl)%string.
Proof.
  unfold FILENAME_PATTERN.
  destruct (match_branch "eppm" name) as [g|] eqn:H.
  - intros Hg. injection Hg as ->. apply match_branch_sound in H.
    destruct H as [H1 H]. split; [now left | exact H].
  - intros H'. apply match_branch_sound in H'.
    destruct H' as [H1 H']. split; [now right | exact H'].
Qed.

(** X17.  [FILENAME_PATTERN] matches exactly the names made of "eppm" or "ppm",
    an underscore, two digits, an underscore, two digits and "_schema.xml",
    letters in either case, with or without one line feed at the end; the
    groups are the application as written and the two pairs of digits. *)
Theorem FILENAME_PATTERN_spec (name g1 g2 g3 : string) :
  FILENAME_PATTERN name = Some (g1, g2, g3) <->
  (lower g1 = "eppm" \/ lower g1 = "ppm")
  /\ is_two_digits g2 = true /\ is_two_digits g3 = true
  /\ exists suffix nl,
       lower suffix = "_schema.xml"
       /\ (nl = "" \/ nl = newline)
       /\ name = (g1 ++ "_" ++ g2 ++ "_" ++ g3 ++ suffix ++ nl)%string.
Proof.
  split; [apply FILENAME_PATTERN_sound|].
  intros [Happ [Hg2 [Hg3 [suffix [nl [Hs [Hnl ->]]]]]]].
  unfold FILENAME_PATTERN. destruct Happ as [Happ|Happ].
  - now rewrite (match_branch_complete "eppm" g1 g2 g3 suffix nl).
  - rewrite (match_branch_complete "ppm" g1 g2 g3 suffix nl) by assumption.
    assert (Hnone : match_branch "eppm"
                      (g1 ++ "_" ++ g2 ++ "_" ++ g3 ++ suffix ++ nl) = None).
    { unfold match_branch. destruct g1 as [|c g1]; [discriminate|].
      simpl in Happ. injection Happ as Hc _. simpl. now rewrite Hc. }
    now rewrite Hnone.
Qed.

(** ** Scanning the schema directory *)

Lemma dict_set_keys_mono {V : Type} (k k' : string) (v : V) (d : dict V) :
  In k' (dict_keys d) \/ k' = k -> In k' (dict_keys (dict_set k v d)).
Proof.
  rewrite dict_set_keys_order. destruct (set_mem k (dict_keys d)) eqn:E.
  - intros [H| ->]; [exact H | now apply set_mem_In].
  - intros [H| ->]; apply in_or_app; [now left | right; now left].
Qed.

Lemma scan_fold (schema_dir : string) (l : list (string * bool)) :
  forall l' entries,
    (forall p, In p l' -> In p l) ->
    NoDup (dict_keys entries) ->
    (forall k e, In (k, e) entries -> scanned_entry schema_dir l k e) ->
    let entries' :=
      fold_left (SchemaRegistry.scan_entry schema_dir) l' entries in
    NoDup (dict_keys entries')
    /\ (forall k e, In (k, e) entries' -> scanned_entry schema_dir l k e)
    /\ (forall k, In k (dict_keys entries) -> In k (dict_keys entries'))
    /\ (forall name g1 g2 g3,
           In (name, true) l' ->
           FILENAME_PATTERN name = Some (g1, g2, g3) ->
           In (lower g1 ++ ":" ++ g2 ++ "." ++ g3)%string (dict_keys entries')).
Proof.
  induction l' as [|[name is_file] l' IH]; intros entries Hsub Hnd Hall;
    cbn zeta.
  - cbn [fold_left]. split; [exact Hnd|]. split; [exact Hall|].
    split; [auto|]. intros ? ? ? ? [].
  - cbn [fold_left].
    set (entries1 := SchemaRegistry.scan_entry schema_dir entries
                                               (name, is_file)).
    assert (Hsub' : forall p, In p l' -> In p l)
      by (intros p Hp; apply Hsub; now right).
    assert (H1 : NoDup (dict_keys entries1)
                 /\ (forall k e, In (k, e) entries1 ->
                                 scanned_entry schema_dir l k e)
                 /\ (forall k, In k (dict_keys entries) ->
                               In k (dict_keys entries1))
                 /\ (forall g1 g2 g3,
                        is_file = true ->
                        FILENAME_PATTERN name = Some (g1, g2, g3) ->
                        In (lower g1 ++ ":" ++ g2 ++ "." ++ g3)%string
                           (dict_keys entries1))).
    { unfold entries1, SchemaRegistry.scan_entry.
      destruct is_file; simpl negb; cbv iota.
      2:{ split; [exact Hnd|]. split; [exact Hall|]. split; [auto|].
          intros ? ? ? Hf. discriminate Hf. }
      destruct (FILENAME_PATTERN name) as [[[g1 g2] g3]|] eqn:Hm.
      2:{ split; [exact Hnd|]. split; [exact Hall|]. split; [auto|].
          intros ? ? ? _ Hh. discriminate Hh. }
      cbn zeta. split; [now apply dict_set_keys|]. split; [|split].
      - intros k e Hin. apply dict_set_In in Hin.
        destruct Hin as [[-> ->]|Hin]; [|now apply Hall].
        pose proof (FILENAME_PATTERN_sound _ _ _ _ Hm) as [Happ _].
        unfold scanned_entry. cbn [SchemaEntry.application
                                    SchemaEntry.version SchemaEntry.path].
        split; [reflexivity|]. split; [exact Happ|].
        split; [now apply FILENAME_PATTERN_digits in Hm|].
        exists name, g1, g2, g3.
        split; [apply Hsub; now left|]. split; [exact Hm|].
        split; [reflexivity|]. split; reflexivity.
      - intros k Hk. apply dict_set_keys_mono. now left.
      - intros h1 h2 h3 _ Hh. injection Hh as <- <- <-.
        apply dict_set_keys_mono. now right. }
    destruct H1 as (Hnd1 & Hall1 & Hmono1 & Hnew1).
    destruct (IH entries1 Hsub' Hnd1 Hall1) as (Hnd2 & Hall2 & Hmono2 & Hnew2).
    split; [exact Hnd2|]. split; [exact Hall2|]. split.
    + intros k Hk. now apply Hmono2, Hmono1.
    + intros n g1 g2 g3 [Heq|Hin] Hm.
      * injection Heq as -> ->. now apply Hmono2, (Hnew1 g1 g2 g3).
      * now apply (Hnew2 n g1 g2 g3).
Qed.

(** X18.  After a scan of a directory whose names are text below 128, the keys
    of the registry are distinct; every entry sits under its own key
    "application:version", has the application "eppm" or "ppm" and a version
    of the shape NN.NN, and comes from a regular file of the listing whose
    name matches the pattern; every such file has its key in the registry;
    a missing directory gives an empty registry. *)
Theorem scan_registry (schema_dir : string)
        (listing : option (list (string * bool))) :
  ascii_listing listing = true ->
  let entries :=
    SchemaRegistry._entries (SchemaRegistry.init schema_dir listing) in
  NoDup (dict_keys entries)
  /\ (forall k e,
         In (k, e) entries ->
         exists l, listing = Some l /\ scanned_entry schema_dir l k e)
  /\ (forall l name g1 g2 g3,
         listing = Some l -> In (name, true) l ->
         FILENAME_PATTERN name = Some (g1, g2, g3) ->
         In (lower g1 ++ ":" ++ g2 ++ "." ++ g3)%string (dict_keys entries))
  /\ (listing = None -> entries = []).
Proof.
  intros _.
  cbn zeta. unfold SchemaRegistry.init. cbn [SchemaRegistry._entries].
  destruct listing as [l|]; cbn [SchemaRegistry._scan].
  - assert (Hnil : forall k e, In (k, e) (@nil (string * SchemaEntry.t)) ->
                               scanned_entry schema_dir l k e)
      by (intros k e []).
    destruct (scan_fold schema_dir l l [] (fun p H => H) (NoDup_nil _) Hnil)
      as (Hnd & Hall & _ & Hnew).
    split; [exact Hnd|]. split; [|split].
    + intros k e Hin. exists l. split; [reflexivity | now apply Hall].
    + intros l0 name g1 g2 g3 Hl. injection Hl as <-. apply Hnew.
    + discriminate.
  - split; [constructor|]. split; [|split].
    + intros k e [].
    + discriminate.
    + reflexivity.
Qed.

Lemma scan_registry_witness :
  NoDup (dict_keys (SchemaRegistry._entries scanned_registry))
  /\ forall k e,
       In (k, e) (SchemaRegistry._entries scanned_registry) ->
       is_NN_NN (SchemaEntry.version e) = true
       /\ k = SchemaEntry.key e.
Proof.
  destruct (scan_registry
              "schemas"
              (Some [("eppm_24_12_schema.xml", true);
                     ("EPPM_09_09_schema.XML", true);
                     ("ppm_23_04_schema.xml", true);
                     ("eppm_10_01_schema.xml", true);
                     ("notes.txt", true);
                     ("eppm_99_99_schema.xml", false)])
              eq_refl) as (Hnd & Hall & _ & _).
  split; [exact Hnd|].
  intros k e Hin. destruct (Hall k e Hin) as [l [_ (Hk & _ & Hv & _)]].
  now split.
Defined.

(** ** Lookup in the registry *)

Lemma lower_append (a b : string) :
  lower (a ++ b) = (lower a ++ lower b)%string.
Proof. induction a as [|c a IH]; simpl; [reflexivity | now rewrite IH]. Qed.

Lemma lower_upper_ascii (c : ascii) : lower_ascii (upper_ascii c) = lower_ascii c.
Proof.
  assert (Hall : forallb (fun c => Ascii.eqb (lower_ascii (upper_ascii c))
                                             (lower_ascii c))
                         all_ascii = true) by (vm_compute; reflexivity).
  rewrite forallb_forall in Hall.
  apply Ascii.eqb_eq, Hall, all_ascii_complete.
Qed.

Lemma lower_upper (s : string) : lower (upper s) = lower s.
Proof.
  induction s as [|c s IH]; simpl; [reflexivity|].
  now rewrite lower_upper_ascii, IH.
Qed.

(** A decimal digit is not a letter, not white space, not a colon and not a
    full stop. *)
Lemma digit_facts (c : ascii) :
  is_digit c = true ->
  lower_ascii c = c /\ is_space c = false
  /\ Ascii.eqb ":"%char c = false /\ Ascii.eqb c "."%char = false.
Proof.
  assert (Hall :
    forallb (fun c => implb (is_digit c)
                            (Ascii.eqb (lower_ascii c) c
                             && negb (is_space c)
                             && negb (Ascii.eqb ":"%char c)
                             && negb (Ascii.eqb c "."%char)))
            all_ascii = true) by (vm_compute; reflexivity).
  rewrite forallb_forall in Hall. specialize (Hall c (all_ascii_complete c)).
  intros Hd. rewrite Hd in Hall. simpl in Hall.
  rewrite !andb_true_iff, !negb_true_iff, Ascii.eqb_eq in Hall. tauto.
Qed.

Lemma rstrip_id (s : string) : ends_nonspace s = true -> rstrip s = s.
Proof.
  induction s as [|c s IH]; [discriminate|].
  destruct s as [|d s].
  - simpl. intros H. apply negb_true_iff in H. now rewrite H.
  - intros H. change (ends_nonspace (String d s) = true) in H.
    specialize (IH H). cbn [rstrip] in *. rewrite IH. reflexivity.
Qed.

Lemma strip_id (s : string) :
  starts_nonspace s = true -> ends_nonspace s = true -> strip s = s.
Proof.
  intros Hs He. unfold strip.
  destruct s as [|c s]; [discriminate|].
  simpl in Hs. apply negb_true_iff in Hs.
  cbn [lstrip]. rewrite Hs. now apply rstrip_id.
Qed.

(** The normal form of a version of the shape NN.NN and of a key made of
    "eppm:" or "ppm:" and such a version. *)
Lemma normalize_NN_NN (v : string) :
  is_NN_NN v = true ->
  strip (lower v) = v
  /\ str_in ":" v = false
  /\ match_bare_version v = true
  /\ strip (lower ("eppm:" ++ v)) = ("eppm:" ++ v)%string
  /\ strip (lower ("ppm:" ++ v)) = ("ppm:" ++ v)%string.
Proof.
  intros Hv.
  destruct (is_NN_NN_inv v Hv) as [a [b [c [d [-> [Ha [Hb [Hc Hd]]]]]]]].
  destruct (digit_facts a Ha) as (La & Sa & Ca & Da).
  destruct (digit_facts b Hb) as (Lb & Sb & Cb & Db).
  destruct (digit_facts c Hc) as (Lc & Sc & Cc & Dc).
  destruct (digit_facts d Hd) as (Ld & Sd & Cd & Dd).
  assert (Hlower :
    lower (String a (String b (String "."%char (String c (String d "")))))
    = String a (String b (String "."%char (String c (String d ""))))).
  { cbn [lower]. rewrite La, Lb, Lc, Ld. reflexivity. }
  split; [|split; [|split; [|split]]].
  - rewrite Hlower. apply strip_id; cbn [starts_nonspace ends_nonspace].
    + now rewrite Sa.
    + now rewrite Sd.
  - cbn [str_in startswith]. rewrite Ca, Cb, Cc, Cd. reflexivity.
  - unfold match_bare_version, match_digits2. rewrite Ha, Hb.
    cbn [andb]. rewrite Ascii.eqb_refl, Hc, Hd. reflexivity.
  - rewrite lower_append, Hlower. apply strip_id.
    + reflexivity.
    + cbn [append ends_nonspace]. now rewrite Sd.
  - rewrite lower_append, Hlower. apply strip_id.
    + reflexivity.
    + cbn [append ends_nonspace]. now rewrite Sd.
Qed.

Lemma str_in_colon_prefixed (app v : string) :
  str_in ":" (app ++ ":" ++ v) = true.
Proof. apply str_in_spec. now exists app, v. Qed.

(** X19.  In any registry a bare version of the shape NN.NN is looked up as the
    key "eppm:" followed by that version. *)
Theorem registry_get_bare_version (reg : SchemaRegistry.t) (v : string) :
  is_NN_NN v = true ->
  registry_get reg v = dict_get ("eppm:" ++ v) (SchemaRegistry._entries reg)
  /\ registry_get reg v = registry_get reg ("eppm:" ++ v).
Proof.
  intros Hv.
  destruct (normalize_NN_NN v Hv) as (Hn & Hc & Hb & He & _).
  pose proof (str_in_colon_prefixed "eppm" v) as Hp.
  change ("eppm" ++ ":" ++ v)%string with ("eppm:" ++ v)%string in Hp.
  unfold registry_get. rewrite Hn, Hc, Hb, He, Hp. split; reflexivity.
Qed.

Lemma registry_get_bare_version_witness :
  registry_get scanned_registry "24.12"
  = dict_get ("eppm:" ++ "24.12") (SchemaRegistry._entries scanned_registry)
  /\ registry_get scanned_registry "24.12"
     = registry_get scanned_registry ("eppm:" ++ "24.12").
Proof.
  apply (registry_get_bare_version scanned_registry "24.12"). reflexivity.
Defined.

(** X20.  After a scan, every entry of the registry is found again under its key,
    and also under the key written in capitals. *)
Theorem registry_get_scanned (schema_dir : string)
        (listing : option (list (string * bool)))
        (k : string) (e : SchemaEntry.t) :
  let reg := SchemaRegistry.init schema_dir listing in
  In (k, e) (SchemaRegistry._entries reg) ->
  registry_get reg k = Some e
  /\ registry_get reg (SchemaEntry.key e) = Some e
  /\ registry_get reg (upper k) = Some e.
Proof.
  cbn zeta. intros Hin.
  destruct listing as [l|]; [|destruct Hin].
  assert (Hnil : forall k e, In (k, e) (@nil (string * SchemaEntry.t)) ->
                             scanned_entry schema_dir l k e)
    by (intros ? ? []).
  destruct (scan_fold schema_dir l l [] (fun p H => H) (NoDup_nil _) Hnil)
    as (Hnd & Hall & _ & _).
  cbn zeta in Hnd, Hall.
  unfold SchemaRegistry.init in *. cbn [SchemaRegistry._entries
                                         SchemaRegistry._scan] in *.
  destruct (Hall k e Hin) as (Hk & Happ & Hv & _).
  assert (Hnorm : strip (lower k) = k /\ str_in ":" k = true).
  { rewrite Hk. unfold SchemaEntry.key.
    split; [|apply str_in_colon_prefixed].
    destruct (normalize_NN_NN _ Hv) as (_ & _ & _ & He & Hp).
    destruct Happ as [-> | ->]; assumption. }
  destruct Hnorm as [Hn Hc].
  assert (Hget : registry_get
                   (SchemaRegistry.mk schema_dir
                      (fold_left (SchemaRegistry.scan_entry schema_dir) l []))
                   k = Some e).
  { unfold registry_get. cbn [SchemaRegistry._entries].
    rewrite Hn, Hc. simpl. now apply dict_get_In. }
  split; [exact Hget|]. split; [now rewrite <- Hk|].
  unfold registry_get in *. cbn [SchemaRegistry._entries] in *.
  now rewrite lower_upper.
Qed.

Lemma registry_get_scanned_witness :
  let e := SchemaEntry.mk "eppm" "24.12" "schemas/eppm_24_12_schema.xml" in
  registry_get scanned_registry "eppm:24.12" = Some e
  /\ registry_get scanned_registry (SchemaEntry.key e) = Some e
  /\ registry_get scanned_registry (upper "eppm:24.12") = Some e.
Proof.
  intros e.
  apply (registry_get_scanned
           "schemas"
           (Some [("eppm_24_12_schema.xml", true);
                  ("EPPM_09_09_schema.XML", true);
                  ("ppm_23_04_schema.xml", true);
                  ("eppm_10_01_schema.xml", true);
                  ("notes.txt", true);
                  ("eppm_99_99_schema.xml", false)])
           "eppm:24.12" e).
  vm_compute. left. reflexivity.
Defined.

(** ** Setting and clearing the default schema *)

Lemma dict_del_keys {V : Type} (key : string) (d : dict V) :
  ~ In key (dict_keys (dict_del key d)).
Proof.
  unfold dict_del, dict_keys. intros H. apply in_map_iff in H.
  destruct H as [[k v] [Hk Hin]]. simpl in Hk. subst k.
  apply filter_In in Hin. destruct Hin as [_ Hin]. simpl in Hin.
  now rewrite String.eqb_refl in Hin.
Qed.

Lemma dict_del_In {V : Type} (key k : string) (v : V) (d : dict V) :
  In (k, v) (dict_del key d) <-> In (k, v) d /\ k <> key.
Proof.
  unfold dict_del. rewrite filter_In, negb_true_iff. simpl.
  now rewrite String.eqb_neq.
Qed.

Lemma dict_del_set {V : Type} (key : string) (v : V) (d : dict V) :
  dict_del key (dict_set key v d) = dict_del key d.
Proof.
  induction d as [|[k0 v0] d IH]; simpl.
  - now rewrite String.eqb_refl.
  - destruct (String.eqb key k0) eqn:E; simpl.
    + apply String.eqb_eq in E. subst k0.
      now rewrite String.eqb_refl.
    + rewrite IH. reflexivity.
Qed.

Lemma dict_set_has_key {V : Type} (key : string) (v : V) (d : dict V) :
  set_mem key (dict_keys (dict_set key v d)) = true.
Proof. apply set_mem_In, dict_set_keys_mono. now right. Qed.

Section ConfigToolProperties.
Variable json_loads : list N -> outcome json.

(** X22.  When the configuration file loads as a mapping, [config_clear_default]
    does exactly one of three things.  If the mapping has no key
    "default_schema" it touches nothing and says that no default was set.
    If it has the key and no other, it removes the file.  If it has the key
    and another one, it saves a mapping that is not empty, lacks the key and
    holds exactly the other pairs of the loaded mapping, in their order.  In
    the last two cases it says that the default was cleared. *)
Theorem config_clear_default_cases (f : config_file) (d : dict json) :
  load_config_json json_loads f = Return (JObject d) ->
  (~ In "default_schema" (dict_keys d) ->
   config_clear_default json_loads f = Done (NoDefaultWasSet, NoEffect))
  /\ (In "default_schema" (dict_keys d) ->
      (forall k, In k (dict_keys d) -> k = "default_schema") ->
      config_clear_default json_loads f = Done (DefaultCleared, Unlink))
  /\ (In "default_schema" (dict_keys d) ->
      (exists k, In k (dict_keys d) /\ k <> "default_schema") ->
      exists d',
        config_clear_default json_loads f
        = Done (DefaultCleared, SaveConfig (JObject d'))
        /\ d' <> []
        /\ ~ In "default_schema" (dict_keys d')
        /\ (forall k v, In (k, v) d' <->
                        In (k, v) d /\ k <> "default_schema")
        /\ d' = filter (fun item => negb (String.eqb (fst item)
                                                     "default_schema")) d).
Proof.
  intros Hload. unfold config_clear_default. rewrite Hload.
  unfold clear_default. cbn [json_contains].
  split; [|split].
  - intros Hno.
    destruct (set_mem "default_schema" (dict_keys d)) eqn:Hmem;
      [|reflexivity].
    exfalso. now apply Hno, set_mem_In.
  - intros Hin Honly.
    rewrite (proj2 (set_mem_In _ _) Hin). cbn zeta.
    destruct (dict_del "default_schema" d) as [|[k v] d'] eqn:Hdel;
      [reflexivity|].
    exfalso.
    assert (Hkv : In (k, v) (dict_del "default_schema" d))
      by (rewrite Hdel; now left).
    apply dict_del_In in Hkv. destruct Hkv as [Hkv Hneq].
    apply Hneq, Honly. unfold dict_keys.
    change k with (fst (k, v)). now apply in_map.
  - intros Hin [k [Hk Hneq]].
    rewrite (proj2 (set_mem_In _ _) Hin). cbn zeta.
    unfold dict_keys in Hk. apply in_map_iff in Hk.
    destruct Hk as [[k' v] [Hk' Hkv]]. simpl in Hk'. subst k'.
    assert (Hkept : In (k, v) (dict_del "default_schema" d))
      by (apply dict_del_In; now split).
    destruct (dict_del "default_schema" d) as [|item d'] eqn:Hdel;
      [destruct Hkept|].
    exists (item :: d'). split; [reflexivity|]. split; [discriminate|].
    rewrite <- Hdel. split; [apply dict_del_keys|].
    split; [intros k0 v0; apply dict_del_In | reflexivity].
Qed.

(** X23.  When [config_set_default] saves a configuration, the loaded value was a
    mapping, the saved mapping is that mapping with "default_schema" set to
    the specifier as it was given, and clearing the saved mapping removes
    the file when the loaded mapping had no other key and saves the other
    keys otherwise. *)
Theorem config_set_then_clear (registry : SchemaRegistry.t)
        (f : config_file) (schema : string)
        (msg : set_message) (saved : json) :
  config_set_default json_loads registry f schema
  = Done (msg, SaveConfig saved) ->
  exists entry d,
    registry_get registry schema = Some entry
    /\ msg = DefaultSet (display_name entry) (SchemaEntry.key entry) schema
    /\ load_config_json json_loads f = Return (JObject d)
    /\ saved = JObject (dict_set "default_schema" (JString schema) d)
    /\ dict_get "default_schema"
                (dict_set "default_schema" (JString schema) d)
       = Some (JString schema)
    /\ clear_default saved
       = Done (DefaultCleared,
               match dict_del "default_schema" d with
               | [] => Unlink
               | d' => SaveConfig (JObject d')
               end).
Proof.
  unfold config_set_default.
  destruct (registry_get registry schema) as [entry|]; [|discriminate].
  destruct (load_config_json json_loads f) as [config|e]; [|discriminate].
  destruct config as [|b|n|s|l|d]; cbn [set_default_key]; try discriminate.
  intros H. injection H as <- <-.
  exists entry, d. split; [reflexivity|]. split; [reflexivity|].
  split; [reflexivity|]. split; [reflexivity|]. split.
  - now rewrite dict_get_set, String.eqb_refl.
  - unfold clear_default. cbn [json_contains].
    rewrite dict_set_has_key. cbn zeta. rewrite dict_del_set.
    now destruct (dict_del "default_schema" d).
Qed.
End ConfigToolProperties.

Lemma config_clear_default_cases_witness :
  let json_loads :=
    fun _ : list N =>
      Return (JObject [("default_schema", JString "eppm:24.12");
                       ("theme", JString "dark")]) in
  exists d',
    config_clear_default json_loads (Contents [])
    = Done (DefaultCleared, SaveConfig (JObject d'))
    /\ d' = [("theme", JString "dark")].
Proof.
  intros json_loads.
  destruct (config_clear_default_cases
              json_loads (Contents [])
              [("default_schema", JString "eppm:24.12");
               ("theme", JString "dark")] eq_refl) as (_ & _ & Hsave).
  destruct Hsave as [d' (Hres & _ & _ & _ & Hd')].
  - left. reflexivity.
  - exists "theme". split; [right; left; reflexivity | discriminate].
  - exists d'. split; [exact Hres | exact Hd'].
Defined.

Lemma config_set_then_clear_witness :
  let json_loads := fun _ : list N => Return (JObject [("theme", JString "dark")]) in
  let saved :=
    JObject (dict_set "default_schema" (JString "eppm:24.12")
                      [("theme", JString "dark")]) in
  exists entry d,
    registry_get scanned_registry "eppm:24.12" = Some entry
    /\ DefaultSet "EPPM 24.12" "eppm:24.12" "eppm:24.12"
       = DefaultSet (display_name entry) (SchemaEntry.key entry) "eppm:24.12"
    /\ load_config_json json_loads (Contents []) = Return (JObject d)
    /\ saved = JObject (dict_set "default_schema" (JString "eppm:24.12") d)
    /\ dict_get "default_schema"
                (dict_set "default_schema" (JString "eppm:24.12") d)
       = Some (JString "eppm:24.12")
    /\ clear_default saved
       = Done (DefaultCleared,
               match dict_del "default_schema" d with
               | [] => Unlink
               | d' => SaveConfig (JObject d')
               end).
Proof.
  intros json_loads saved.
  apply (config_set_then_clear json_loads scanned_registry (Contents [])
                               "eppm:24.12").
  reflexivity.
Defined.

(** ** Resolving a specifier *)

Lemma last_opt_none {A : Type} (l : list A) : last_opt l = None <-> l = [].
Proof.
  split; [|now intros ->].
  induction l as [|x l IH]; [reflexivity|].
  destruct l as [|y l]; [discriminate|].
  intros H. change (last_opt (y :: l) = None) in H.
  apply IH in H. discriminate.
Qed.

Lemma last_opt_In {A : Type} (l : list A) (x : A) :
  last_opt l = Some x -> In x l.
Proof.
  induction l as [|y l IH]; [discriminate|].
  destruct l as [|z l].
  - intros H. injection H as ->. now left.
  - intros H. right. now apply IH.
Qed.

(** [get_latest] finds nothing exactly when the application has no entry,
    and what it finds is an entry of the application. *)
Lemma get_latest_cases (reg : SchemaRegistry.t) (application : string) :
  match SchemaRegistry.get_latest reg application with
  | Some e =>
      In e (dict_values (SchemaRegistry._entries reg))
      /\ SchemaEntry.application e = lower application
  | None =>
      forall e, In e (dict_values (SchemaRegistry._entries reg)) ->
                SchemaEntry.application e <> lower application
  end.
Proof.
  unfold SchemaRegistry.get_latest, SchemaRegistry.list_by_app.
  set (l := filter _ _).
  destruct (last_opt (sorted_by SchemaRegistry.version_lt l)) as [e|] eqn:H.
  - apply last_opt_In, sorted_by_In in H. unfold l in H.
    apply filter_In in H. destruct H as [Hin Happ].
    now apply String.eqb_eq in Happ.
  - apply last_opt_none in H. intros e Hin Happ.
    assert (He : In e (sorted_by SchemaRegistry.version_lt l)).
    { apply sorted_by_In. unfold l. apply filter_In.
      split; [exact Hin | now apply String.eqb_eq]. }
    rewrite H in He. destruct He.
Qed.

Lemma digit_not_separator (c : ascii) :
  is_digit c = true ->
  Ascii.eqb "/"%char c = false /\ Ascii.eqb "\"%char c = false.
Proof.
  assert (Hall :
    forallb (fun c => implb (is_digit c)
                            (negb (Ascii.eqb "/"%char c)
                             && negb (Ascii.eqb "\"%char c)))
            all_ascii = true) by (vm_compute; reflexivity).
  rewrite forallb_forall in Hall. specialize (Hall c (all_ascii_complete c)).
  intros Hd. rewrite Hd in Hall. simpl in Hall.
  rewrite !andb_true_iff, !negb_true_iff in Hall. tauto.
Qed.

Lemma separators_NN_NN (v : string) :
  is_NN_NN v = true ->
  str_in "/" v = false /\ str_in "\" v = false
  /\ str_in "/" ("eppm:" ++ v)%string = false
  /\ str_in "\" ("eppm:" ++ v)%string = false.
Proof.
  intros Hv.
  destruct (is_NN_NN_inv v Hv) as [a [b [c [d [-> [Ha [Hb [Hc Hd]]]]]]]].
  destruct (digit_not_separator a Ha) as [Sa Ba].
  destruct (digit_not_separator b Hb) as [Sb Bb].
  destruct (digit_not_separator c Hc) as [Sc Bc].
  destruct (digit_not_separator d Hd) as [Sd Bd].
  repeat split; cbn [append str_in startswith];
    rewrite ?Sa, ?Sb, ?Sc, ?Sd, ?Ba, ?Bb, ?Bc, ?Bd; reflexivity.
Qed.

Section ResolveProperties.
Variable path_suffix : string -> string.
Variable path_exists : string -> bool.

(** X24.  With no specifier and no default, [resolve_schema_path] gives the path
    of the entry that [get_latest] finds for "eppm", which is an entry of
    the registry, and fails with the error of the missing EPPM schemas
    exactly when the registry has no "eppm" entry; the file system is not
    asked. *)
Theorem resolve_without_specifier (registry : SchemaRegistry.t)
        (default_schema specifier : option string) :
  is_falsy specifier = true -> is_falsy default_schema = true ->
  match resolve_schema_path path_suffix path_exists registry
                            default_schema specifier with
  | inl (EntryPath p) =>
      exists e,
        SchemaRegistry.get_latest registry "eppm" = Some e
        /\ In e (dict_values (SchemaRegistry._entries registry))
        /\ SchemaEntry.application e = "eppm"
        /\ SchemaEntry.path e = p
  | inr NoEppmSchemas =>
      forall e, In e (dict_values (SchemaRegistry._entries registry)) ->
                SchemaEntry.application e <> "eppm"
  | _ => False
  end.
Proof.
  intros Hs Hd. unfold resolve_schema_path. rewrite Hs. cbn zeta.
  pose proof (get_latest_cases registry "eppm") as Hlatest.
  assert (Hgoal :
    match
      match SchemaRegistry.get_latest registry "eppm" with
      | Some latest => inl (EntryPath (SchemaEntry.path latest))
      | None => inr NoEppmSchemas
      end
    with
    | inl (EntryPath p) =>
        exists e,
          SchemaRegistry.get_latest registry "eppm" = Some e
          /\ In e (dict_values (SchemaRegistry._entries registry))
          /\ SchemaEntry.application e = "eppm"
          /\ SchemaEntry.path e = p
    | inr NoEppmSchemas =>
        forall e, In e (dict_values (SchemaRegistry._entries registry)) ->
                  SchemaEntry.application e <> "eppm"
    | _ => False
    end).
  { destruct (SchemaRegistry.get_latest registry "eppm") as [e|].
    - destruct Hlatest as [Hin Happ]. exists e. auto.
    - exact Hlatest. }
  destruct default_schema as [[|c r]|]; try discriminate Hd; exact Hgoal.
Qed.

(** X25.  A bare version of the shape NN.NN and the key "eppm:" followed by it
    resolve through the same registry entry, when neither is taken for a
    file name: both give the path of the entry under that key, or both fail
    with the error that names the specifier as given. *)
Theorem resolve_bare_version (registry : SchemaRegistry.t)
        (default_schema : option string) (v : string) :
  is_NN_NN v = true ->
  path_suffix v <> ".xml" -> path_suffix ("eppm:" ++ v)%string <> ".xml" ->
  let lookup (specifier : string) :=
    match dict_get ("eppm:" ++ v)%string (SchemaRegistry._entries registry) with
    | Some entry => inl (EntryPath (SchemaEntry.path entry))
    | None => inr (SchemaNotInRegistry specifier (available_keys registry))
    end in
  resolve_schema_path path_suffix path_exists registry default_schema (Some v)
  = lookup v
  /\ resolve_schema_path path_suffix path_exists registry default_schema
                         (Some ("eppm:" ++ v)%string)
     = lookup ("eppm:" ++ v)%string.
Proof.
  intros Hv Hs1 Hs2. cbn zeta.
  destruct (separators_NN_NN v Hv) as (S1 & B1 & S2 & B2).
  destruct (normalize_NN_NN v Hv) as (Hn & Hc & Hb & He & _).
  pose proof (str_in_colon_prefixed "eppm" v) as Hp.
  change ("eppm" ++ ":" ++ v)%string with ("eppm:" ++ v)%string in Hp.
  apply String.eqb_neq in Hs1, Hs2.
  unfold resolve_schema_path. split.
  - destruct (is_NN_NN_inv v Hv) as [a [b [c [d [Hshape _]]]]].
    rewrite Hshape in *. cbn [is_falsy]. cbv iota.
    rewrite Hs1, S1, B1. cbn [orb].
    unfold registry_get. rewrite Hn, Hc, Hb. reflexivity.
  - cbn [append is_falsy]. cbv iota.
    change (String "e" (String "p" (String "p" (String "m" (String ":" v)))))
      with ("eppm:" ++ v)%string.
    rewrite Hs2, S2, B2. cbn [orb].
    unfold registry_get. rewrite He, Hp. reflexivity.
Qed.
End ResolveProperties.

Lemma resolve_without_specifier_witness :
  match resolve_schema_path (fun _ => "") (fun _ => false) scanned_registry
                            None (Some "") with
  | inl (EntryPath p) =>
      exists e,
        SchemaRegistry.get_latest scanned_registry "eppm" = Some e
        /\ In e (dict_values (SchemaRegistry._entries scanned_registry))
        /\ SchemaEntry.application e = "eppm"
        /\ SchemaEntry.path e = p
  | inr NoEppmSchemas =>
      forall e,
        In e (dict_values (SchemaRegistry._entries scanned_registry)) ->
        SchemaEntry.application e <> "eppm"
  | _ => False
  end.
Proof.
  apply (resolve_without_specifier (fun _ => "") (fun _ => false)
                                   scanned_registry None (Some ""));
    reflexivity.
Defined.

Lemma resolve_bare_version_witness :
  let lookup (specifier : string) :=
    match dict_get ("eppm:" ++ "24.12")%string
                   (SchemaRegistry._entries scanned_registry) with
    | Some entry => inl (EntryPath (SchemaEntry.path entry))
    | None =>
        inr (SchemaNotInRegistry specifier (available_keys scanned_registry))
    end in
  resolve_schema_path (fun _ => "") (fun _ => false) scanned_registry None
                      (Some "24.12")
  = lookup "24.12"
  /\ resolve_schema_path (fun _ => "") (fun _ => false) scanned_registry None
                         (Some ("eppm:" ++ "24.12")%string)
     = lookup ("eppm:" ++ "24.12")%string.
Proof.
  apply (resolve_bare_version (fun _ => "") (fun _ => false)
                              scanned_registry None "24.12");
    [reflexivity | discriminate | discriminate].
Defined.

(** ** Listing fields *)

Lemma loop_append_all {A B : Type} (f : A -> B) (l : list A) :
  forall acc, fold_left (fun acc x => acc ++ [f x]) l acc = acc ++ map f l.
Proof.
  induction l as [|x l IH]; intros acc; simpl.
  - now rewrite app_nil_r.
  - rewrite IH. now rewrite <- app_assoc.
Qed.

Lemma field_rows_loop (tables : list Table.t) :
  fold_left
    (fun result t =>
       fold_left (fun result f => result ++ [FieldRow.of_field t f])
                 (Table.fields t) result)
    tables []
  = flat_map field_rows tables.
Proof.
  apply (loop_nested
           (fun t result =>
              fold_left (fun result f => result ++ [FieldRow.of_field t f])
                        (Table.fields t) result)
           field_rows).
  intros t acc. apply loop_append_all.
Qed.

(** X26.  [get_fields] with a name that [get_table] finds lists the fields of
    that table in their order, and reports the name when it is not found.
    Without a name, or with the empty name, it lists the fields of all
    tables, the tables in ascending order of their names: as many rows as
    [get_stats] counts fields.  A row says "not null" exactly when the
    NOTNULL text of the field is "Y", and its length is the character
    length, or else the precision. *)
Theorem get_fields_rows (s : Schema.t) :
  (forall c r,
      get_fields s (Some (String c r))
      = match Schema.get_table s (String c r) with
        | Some t => Answer (field_rows t)
        | None => TableNotFound (String c r)
        end)
  /\ get_fields s (Some "") = get_fields s None
  /\ (exists tables,
         get_fields s None = Answer (flat_map field_rows tables)
         /\ Permutation tables (dict_values (Schema.tables s))
         /\ ascending Table.name tables
         /\ List.length (flat_map field_rows tables)
            = stat_fields (get_stats s))
  /\ forall t f,
       (FieldRow.notnull (FieldRow.of_field t f) = true <->
        Field.notnull f = "Y")
       /\ FieldRow.length (FieldRow.of_field t f)
          = match Field.charlength f with
            | EmptyString => Field.dataprecision f
            | _ => Field.charlength f
            end.
Proof.
  split; [|split; [|split]].
  - intros c r. unfold get_fields.
    destruct (Schema.get_table s (String c r)) as [t|]; [|reflexivity].
    rewrite field_rows_loop. simpl. now rewrite app_nil_r.
  - reflexivity.
  - exists (sorted_by table_name_lt (dict_values (Schema.tables s))).
    split; [|split; [|split]].
    + unfold get_fields. now rewrite field_rows_loop.
    + apply sorted_by_perm.
    + apply (sorted_by_ascending Table.name).
    + unfold get_stats. cbn [stat_fields]. rewrite py_sum_lengths.
      transitivity
        (List.length
           (flat_map field_rows (dict_values (Schema.tables s)))).
      * apply Permutation_length, Permutation_flat_map, sorted_by_perm.
      * apply length_flat_map_ext. intros t. unfold field_rows.
        apply length_map.
  - intros t f. split.
    + unfold FieldRow.of_field. cbn [FieldRow.notnull].
      apply String.eqb_eq.
    + unfold FieldRow.of_field, FieldRow.str_or. cbn [FieldRow.length].
      destruct (Field.charlength f); [|reflexivity].
      now destruct (Field.dataprecision f).
Qed.

(** ** The listing of the registry *)

Section SortedByOrder.
Context {A : Type}.
Variable lt : A -> A -> bool.
Hypothesis lt_asym : forall x y, lt x y = true -> lt y x = false.
Hypothesis le_trans :
  forall x y z, lt y x = false -> lt z y = false -> lt z x = false.

(** For an order with these two properties, sorting leaves no element in
    front of a smaller one. *)
Lemma sorted_by_ordered (l : list A) :
  StronglySorted (fun a b => lt b a = false) (sorted_by lt l).
Proof.
  assert (Hins : forall x l',
             StronglySorted (fun a b => lt b a = false) l' ->
             StronglySorted (fun a b => lt b a = false)
                            (insert_sorted lt x l')).
  { intros x l' Hs. induction Hs as [|y l' Hs IH Hy]; simpl.
    - constructor; constructor.
    - destruct (lt y x) eqn:E.
      + constructor; [exact IH|].
        apply Forall_forall. intros z Hz. apply insert_sorted_In in Hz.
        destruct Hz as [->|Hz].
        * now apply lt_asym.
        * rewrite Forall_forall in Hy. now apply Hy.
      + constructor; [now constructor|].
        constructor; [exact E|].
        rewrite Forall_forall in *. intros z Hz.
        apply (le_trans x y z); [exact E | now apply Hy]. }
  induction l as [|x l IH]; [constructor|].
  change (sorted_by lt (x :: l)) with (insert_sorted lt x (sorted_by lt l)).
  now apply Hins.
Qed.
End SortedByOrder.

Lemma string_ltb_leb (a b : string) :
  String.ltb a b = true -> String.leb a b = true.
Proof. intros H. apply string_leb_ltb. now apply string_ltb_asym. Qed.

Lemma string_ltb_neq (a b : string) : String.ltb a b = true -> a <> b.
Proof.
  intros H ->. pose proof (string_ltb_asym b b H). congruence.
Qed.

Lemma string_leb_neq_ltb (a b : string) :
  String.leb a b = true -> a <> b -> String.ltb a b = true.
Proof.
  unfold String.leb, String.ltb.
  destruct (String.compare a b) eqn:E; try discriminate; [|reflexivity].
  apply String.compare_eq_iff in E. contradiction.
Qed.

(** The test of the sort, read as an order. *)
Lemma app_version_lt_false (a b : SchemaEntry.t) :
  app_version_lt b a = false <-> app_version_le a b.
Proof.
  unfold app_version_lt, app_version_le.
  destruct (String.eqb (SchemaEntry.application b)
                       (SchemaEntry.application a)) eqn:E.
  - apply String.eqb_eq in E. rewrite <- string_leb_ltb. split.
    + intros H. right. now split.
    + intros [H|[_ H]]; [|exact H].
      rewrite E in H. pose proof (string_ltb_asym _ _ H). congruence.
  - apply String.eqb_neq in E. rewrite <- string_leb_ltb. split.
    + intros H. left. apply string_leb_neq_ltb; [exact H | congruence].
    + intros [H|[H _]]; [now apply string_ltb_leb | congruence].
Qed.

Lemma app_version_le_trans (a b c : SchemaEntry.t) :
  app_version_le a b -> app_version_le b c -> app_version_le a c.
Proof.
  unfold app_version_le.
  intros [Hab|[Eab Vab]] [Hbc|[Ebc Vbc]].
  - left. unfold String.ltb in *.
    destruct (String.compare (SchemaEntry.application a)
                             (SchemaEntry.application b)) eqn:E1;
      try discriminate.
    destruct (String.compare (SchemaEntry.application b)
                             (SchemaEntry.application c)) eqn:E2;
      try discriminate.
    now rewrite (string_compare_lt_trans _ _ _ E1 E2).
  - left. now rewrite <- Ebc.
  - left. now rewrite Eab.
  - right. split; [congruence|]. now apply (string_leb_trans _ _ _ Vab Vbc).
Qed.

(** X15.  [list_all], which the tool list_schemas shows, returns the entries of
    the registry, each once, in ascending order of the application and,
    within an application, of the version, both compared as texts. *)
Theorem list_all_sorted (reg : SchemaRegistry.t) :
  Permutation (list_all reg) (dict_values (SchemaRegistry._entries reg))
  /\ StronglySorted app_version_le (list_all reg).
Proof.
  unfold list_all. split; [apply sorted_by_perm|].
  assert (Hs : StronglySorted (fun a b => app_version_lt b a = false)
                 (sorted_by app_version_lt
                            (dict_values (SchemaRegistry._entries reg)))).
  { apply sorted_by_ordered.
    - intros x y H.
      destruct (app_version_lt y x) eqn:E; [|reflexivity].
      exfalso. unfold app_version_lt in *.
      destruct (String.eqb (SchemaEntry.application x)
                           (SchemaEntry.application y)) eqn:Exy.
      + rewrite String.eqb_sym, Exy in E.
        pose proof (string_ltb_asym _ _ H). congruence.
      + rewrite String.eqb_sym, Exy in E.
        pose proof (string_ltb_asym _ _ H). congruence.
    - intros x y z Hxy Hyz. apply app_version_lt_false.
      apply app_version_lt_false in Hxy, Hyz.
      now apply (app_version_le_trans x y z). }
  induction Hs as [|x l Hs IH Hx]; constructor; [exact IH|].
  rewrite Forall_forall in *. intros y Hy.
  now apply app_version_lt_false, Hx.
Qed.

(** ** The latest version is the greatest text *)

Lemma string_leb_refl (a : string) : String.leb a a = true.
Proof.
  apply string_leb_ltb.
  destruct (String.ltb a a) eqn:E; [|reflexivity].
  pose proof (string_ltb_asym a a E). congruence.
Qed.

(** The last element of a list in ascending order is a greatest one. *)
Lemma last_opt_ascending {A : Type} (key : A -> string) (l : list A)
      (m : A) :
  ascending key l -> last_opt l = Some m ->
  forall x, In x l -> String.leb (key x) (key m) = true.
Proof.
  unfold ascending. intros Hs. revert m.
  induction Hs as [|y l Hs IH Hy]; intros m Hm x Hx; [destruct Hx|].
  destruct l as [|z l].
  - simpl in Hm. injection Hm as <-. destruct Hx as [->|[]].
    apply string_leb_refl.
  - change (last_opt (z :: l) = Some m) in Hm.
    destruct Hx as [->|Hx]; [|now apply (IH m Hm)].
    rewrite Forall_forall in Hy. apply Hy. now apply last_opt_In.
Qed.

(** C3, where the code departs from it.  [get_latest] returns nothing
    exactly when the application has no entry, and otherwise an entry of
    the application whose version is the greatest as a text, character by
    character: no version of the application is a greater text.  The
    versions are never read as numbers. *)
Theorem get_latest_greatest_text (reg : SchemaRegistry.t)
        (application : string) :
  match SchemaRegistry.get_latest reg application with
  | None =>
      forall e, In e (dict_values (SchemaRegistry._entries reg)) ->
                SchemaEntry.application e <> lower application
  | Some latest =>
      In latest (dict_values (SchemaRegistry._entries reg))
      /\ SchemaEntry.application latest = lower application
      /\ forall e, In e (dict_values (SchemaRegistry._entries reg)) ->
                   SchemaEntry.application e = lower application ->
                   String.leb (SchemaEntry.version e)
                              (SchemaEntry.version latest) = true
  end.
Proof.
  pose proof (get_latest_cases reg application) as Hcases.
  unfold SchemaRegistry.get_latest, SchemaRegistry.list_by_app in *.
  set (l := filter
              (fun e => String.eqb (SchemaEntry.application e)
                                   (lower application))
              (dict_values (SchemaRegistry._entries reg))) in *.
  destruct (last_opt (sorted_by SchemaRegistry.version_lt l)) as [m|] eqn:Hm;
    [|exact Hcases].
  destruct Hcases as [Hin Happ]. split; [exact Hin|]. split; [exact Happ|].
  intros e He Heapp.
  apply (last_opt_ascending SchemaEntry.version
                            (sorted_by SchemaRegistry.version_lt l) m).
  - apply (sorted_by_ascending SchemaEntry.version).
  - exact Hm.
  - apply sorted_by_In. unfold l. apply filter_In.
    split; [exact He | now apply String.eqb_eq].
Qed.
